(** * Formula reference page: search filter, section toggles, search history

  A shallow embedding of [script.js].  The script is event wiring over a
  page: an [input] listener that filters formula cards and categories,
  click listeners that collapse derivation blocks, a key listener, two
  timers and a search history kept in [localStorage].

  JavaScript strings are sequences of UTF-16 code units, kept here as
  [list N].  The built-in operations the script calls ([includes], [trim],
  [JSON.parse], [JSON.stringify]) are written out after ECMA-262; the two
  that need tables or floating point (Unicode case mapping, Number
  conversion) are the fields of [Host]. *)

From stdpp Require Import gmap strings list fin_maps.
From Stdlib Require Import NArith ZArith Ascii Lia.

Set Warnings "-register-all".

Abbreviation jsstring := (list N) (only parsing).

(** ** Strings *)
Module Str.
Local Open Scope N_scope.

(** The code unit of an ASCII character, and of an ASCII literal. *)
Definition chr (a : ascii) : N := N_of_ascii a.
Definition js (s : string) : jsstring := chr <$> String.list_ascii_of_string s.

(** A string is truthy when it is not empty. *)
Definition truthy (s : jsstring) : bool :=
  match s with [] => false | _ :: _ => true end.

(** [p] is found at the very start of [s]. *)
Fixpoint startsWith (s p : jsstring) {struct p} : bool :=
  match p, s with
  | [], _ => true
  | _ :: _, [] => false
  | x :: p', y :: s' => (x =? y) && startsWith s' p'
  end.

(** [s.includes(p)]: [p] occurs in [s] at some position. *)
Fixpoint includes (s p : jsstring) : bool :=
  startsWith s p ||
  match s with
  | [] => false
  | _ :: s' => includes s' p
  end.

(** WhiteSpace and LineTerminator code units, the ones [trim] strips. *)
Definition is_white_space (c : N) : bool :=
  (c =? 9) || (c =? 10) || (c =? 11) || (c =? 12) || (c =? 13) ||
  (c =? 32) || (c =? 160) || (c =? 5760) ||
  ((8192 <=? c) && (c <=? 8202)) ||
  (c =? 8232) || (c =? 8233) || (c =? 8239) || (c =? 8287) ||
  (c =? 12288) || (c =? 65279).

Fixpoint trimStart (s : jsstring) : jsstring :=
  match s with
  | c :: s' => if is_white_space c then trimStart s' else s
  | [] => []
  end.

Definition trimEnd (s : jsstring) : jsstring :=
  reverse (trimStart (reverse s)).

Definition trim (s : jsstring) : jsstring := trimEnd (trimStart s).
End Str.

(** ** Host functions

  What the engine supplies and the page script only calls: the Number
  values behind JSON number literals, with their conversion from a literal
  and to JSON text, and the Unicode lower-case mapping of strings. *)
Class Host := {
number : Type;
StringToNumber : jsstring → number;
NumberToJSON : number → jsstring;
toLowerCase : jsstring → jsstring;
toLowerCase_empty : toLowerCase [] = [];
}.

(** ** Exceptions *)
Inductive error := SyntaxError | TypeError.

Inductive result (A : Type) :=
| Return (a : A)
| Throw (e : error).
Arguments Return {A} a.
Arguments Throw {A} e.

(** ** JSON *)
Module JSON.
Import Str.
Local Open Scope N_scope.

(** Outcome of a parsing step: a value and the text after it, a character
    the grammar does not allow, or no recursion depth left. *)
Inductive presult (A : Type) :=
| Parsed (a : A) (rest : jsstring)
| Unexpected
| OutOfFuel.
Arguments Parsed {A} a rest.
Arguments Unexpected {A}.
Arguments OutOfFuel {A}.

Section Values.
Context {H : Host}.

Inductive value :=
| VNull
| VBool (b : bool)
| VNum (n : number)
| VStr (s : jsstring)
| VArr (items : list value)
| VObj (props : list (jsstring * value)).

(** *** Property keys

    An object lists its array-index keys first, in ascending order, and then
    its other keys in creation order; defining a key again keeps its place
    and replaces the value. *)
Definition is_digit (c : N) : bool := (48 <=? c) && (c <=? 57).

Definition decimal (s : jsstring) : N :=
  fold_left (λ acc c, 10 * acc + (c - 48)) s 0.

(** Canonical numeric strings of the integers below 2^32 - 1. *)
Definition array_index (k : jsstring) : option N :=
  match k with
  | [] => None
  | c :: k' =>
    if forallb is_digit k && (negb (c =? 48) || negb (truthy k'))
       && (length k <=? 10)%nat && (decimal k <? 4294967295)
    then Some (decimal k) else None
  end.

Definition key_before (k k' : jsstring) : bool :=
  match array_index k, array_index k' with
  | Some i, Some i' => i <? i'
  | Some _, None => true
  | None, _ => false
  end.

Fixpoint define_property (k : jsstring) (v : value)
    (props : list (jsstring * value)) : list (jsstring * value) :=
  match props with
  | [] => [(k, v)]
  | (k', v') :: rest =>
    if bool_decide (k = k') then (k, v) :: rest
    else if key_before k k' && negb (existsb (λ p, bool_decide (p.1 = k)) rest)
    then (k, v) :: props
    else (k', v') :: define_property k v rest
  end.

Definition make_object (members : list (jsstring * value)) : value :=
  VObj (fold_left (λ props m, define_property m.1 m.2 props) members []).

(** *** JSON.parse *)
Definition is_json_ws (c : N) : bool :=
  (c =? 9) || (c =? 10) || (c =? 13) || (c =? 32).

Fixpoint skip_ws (s : jsstring) : jsstring :=
  match s with
  | c :: s' => if is_json_ws c then skip_ws s' else s
  | [] => []
  end.

Fixpoint strip_prefix (p s : jsstring) {struct p} : option jsstring :=
  match p, s with
  | [], _ => Some s
  | _ :: _, [] => None
  | x :: p', y :: s' => if x =? y then strip_prefix p' s' else None
  end.

Definition hex_value (c : N) : option N :=
  if (48 <=? c) && (c <=? 57) then Some (c - 48)
  else if (97 <=? c) && (c <=? 102) then Some (c - 87)
  else if (65 <=? c) && (c <=? 70) then Some (c - 55)
  else None.

Definition hex4 (h1 h2 h3 h4 : N) : option N :=
  a ← hex_value h1; b ← hex_value h2; c ← hex_value h3; d ← hex_value h4;
  Some (4096 * a + 256 * b + 16 * c + d).

(** The character after a reverse solidus, other than [u]. *)
Definition simple_escape (e : N) : option N :=
  if e =? 34 then Some 34
  else if e =? 92 then Some 92
  else if e =? chr "/" then Some (chr "/")
  else if e =? chr "b" then Some 8
  else if e =? chr "f" then Some 12
  else if e =? chr "n" then Some 10
  else if e =? chr "r" then Some 13
  else if e =? chr "t" then Some 9
  else None.

Definition cons_char (c : N) (r : option (jsstring * jsstring))
    : option (jsstring * jsstring) :=
  match r with
  | Some (str, rest) => Some (c :: str, rest)
  | None => None
  end.

(** The characters of a string literal, after its opening quotation mark
    and up to the closing one. *)
Fixpoint parse_string_chars (s : jsstring) : option (jsstring * jsstring) :=
  match s with
  | [] => None
  | c :: s1 =>
    if c =? 34 then Some ([], s1)
    else if c =? 92 then
      match s1 with
      | [] => None
      | e :: s2 =>
        if e =? chr "u" then
          match s2 with
          | h1 :: h2 :: h3 :: h4 :: s3 =>
            match hex4 h1 h2 h3 h4 with
            | Some u => cons_char u (parse_string_chars s3)
            | None => None
            end
          | _ => None
          end
        else
          match simple_escape e with
          | Some u => cons_char u (parse_string_chars s2)
          | None => None
          end
      end
    else if c <? 32 then None
    else cons_char c (parse_string_chars s1)
  end.

Fixpoint span_digits (s : jsstring) : jsstring * jsstring :=
  match s with
  | c :: s' =>
    if is_digit c then let (ds, r) := span_digits s' in (c :: ds, r)
    else ([], s)
  | [] => ([], [])
  end.

(** One or more digits. *)
Definition scan_digits1 (s : jsstring) : option (jsstring * jsstring) :=
  match span_digits s with
  | ([], _) => None
  | (ds, r) => Some (ds, r)
  end.

Definition scan_int (s : jsstring) : option (jsstring * jsstring) :=
  match s with
  | c :: s' => if c =? 48 then Some ([c], s') else scan_digits1 s
  | [] => None
  end.

Definition scan_frac (s : jsstring) : option (jsstring * jsstring) :=
  match s with
  | c :: s' =>
    if c =? chr "." then
      match scan_digits1 s' with
      | Some (ds, r) => Some (c :: ds, r)
      | None => None
      end
    else Some ([], s)
  | [] => Some ([], [])
  end.

Definition scan_exp (s : jsstring) : option (jsstring * jsstring) :=
  match s with
  | c :: s' =>
    if (c =? chr "e") || (c =? chr "E") then
      let (sign, s'') :=
        match s' with
        | d :: t => if (d =? chr "+") || (d =? chr "-") then ([d], t) else ([], s')
        | [] => ([], s')
        end in
      match scan_digits1 s'' with
      | Some (ds, r) => Some (c :: sign ++ ds, r)
      | None => None
      end
    else Some ([], s)
  | [] => Some ([], [])
  end.

(** A number literal: optional minus, integer part, optional fraction and
    exponent. *)
Definition scan_number (s : jsstring) : option (jsstring * jsstring) :=
  let (sign, s0) :=
    match s with
    | c :: s' => if c =? chr "-" then ([c], s') else ([], s)
    | [] => ([], s)
    end in
  '(i, s1) ← scan_int s0;
  '(f, s2) ← scan_frac s1;
  '(e, s3) ← scan_exp s2;
  Some (sign ++ i ++ f ++ e, s3).

(** Elements of a non-empty array, up to and including the closing
    bracket; [pv] parses one value. *)
Fixpoint parse_elements (pv : jsstring → presult value) (n : nat)
    (s : jsstring) : presult (list value) :=
  match n with
  | O => OutOfFuel
  | S n' =>
    match pv s with
    | Parsed v r =>
      match skip_ws r with
      | c :: r' =>
        if c =? chr "," then
          match parse_elements pv n' r' with
          | Parsed vs r'' => Parsed (v :: vs) r''
          | Unexpected => Unexpected
          | OutOfFuel => OutOfFuel
          end
        else if c =? chr "]" then Parsed [v] r'
        else Unexpected
      | [] => Unexpected
      end
    | Unexpected => Unexpected
    | OutOfFuel => OutOfFuel
    end
  end.

(** Members of a non-empty object, up to and including the closing brace. *)
Fixpoint parse_members (pv : jsstring → presult value) (n : nat)
    (s : jsstring) : presult (list (jsstring * value)) :=
  match n with
  | O => OutOfFuel
  | S n' =>
    match skip_ws s with
    | q :: s1 =>
      if q =? 34 then
        match parse_string_chars s1 with
        | Some (k, s2) =>
          match skip_ws s2 with
          | c :: s3 =>
            if c =? chr ":" then
              match pv s3 with
              | Parsed v r =>
                match skip_ws r with
                | d :: r' =>
                  if d =? chr "," then
                    match parse_members pv n' r' with
                    | Parsed ms r'' => Parsed ((k, v) :: ms) r''
                    | Unexpected => Unexpected
                    | OutOfFuel => OutOfFuel
                    end
                  else if d =? chr "}" then Parsed [(k, v)] r'
                  else Unexpected
                | [] => Unexpected
                end
              | Unexpected => Unexpected
              | OutOfFuel => OutOfFuel
              end
            else Unexpected
          | [] => Unexpected
          end
        | None => Unexpected
        end
      else Unexpected
    | [] => Unexpected
    end
  end.

Definition parse_literal (lit : jsstring) (v : value) (s : jsstring)
    : presult value :=
  match strip_prefix lit s with
  | Some r => Parsed v r
  | None => Unexpected
  end.

Fixpoint parse_value (fuel : nat) (s : jsstring) : presult value :=
  match fuel with
  | O => OutOfFuel
  | S f =>
    match skip_ws s with
    | [] => Unexpected
    | c :: s1 =>
      if c =? chr "[" then
        match skip_ws s1 with
        | d :: s2 =>
          if d =? chr "]" then Parsed (VArr []) s2
          else
            match parse_elements (parse_value f) f s1 with
            | Parsed vs r => Parsed (VArr vs) r
            | Unexpected => Unexpected
            | OutOfFuel => OutOfFuel
            end
        | [] => Unexpected
        end
      else if c =? chr "{" then
        match skip_ws s1 with
        | d :: s2 =>
          if d =? chr "}" then Parsed (VObj []) s2
          else
            match parse_members (parse_value f) f s1 with
            | Parsed ms r => Parsed (make_object ms) r
            | Unexpected => Unexpected
            | OutOfFuel => OutOfFuel
            end
        | [] => Unexpected
        end
      else if c =? 34 then
        match parse_string_chars s1 with
        | Some (str, r) => Parsed (VStr str) r
        | None => Unexpected
        end
      else if (c =? chr "-") || is_digit c then
        match scan_number (c :: s1) with
        | Some (lit, r) => Parsed (VNum (StringToNumber lit)) r
        | None => Unexpected
        end
      else if c =? chr "n" then parse_literal (js "null") VNull (c :: s1)
      else if c =? chr "t" then parse_literal (js "true") (VBool true) (c :: s1)
      else if c =? chr "f" then parse_literal (js "false") (VBool false) (c :: s1)
      else Unexpected
    end
  end.

(** [JSON.parse(text)]: one value, white space around it, nothing else. *)
Definition parse (text : jsstring) : result value :=
  match parse_value (S (length text)) text with
  | Parsed v r =>
    match skip_ws r with
    | [] => Return v
    | _ :: _ => Throw SyntaxError
    end
  | Unexpected => Throw SyntaxError
  | OutOfFuel => Throw SyntaxError
  end.

(** *** JSON.stringify *)
Definition hex_digit (d : N) : N := if d <? 10 then 48 + d else 87 + d.

Definition unicode_escape (c : N) : jsstring :=
  [92; chr "u"; hex_digit (c / 4096 mod 16); hex_digit (c / 256 mod 16);
   hex_digit (c / 16 mod 16); hex_digit (c mod 16)].

Definition is_high_surrogate (c : N) : bool := (55296 <=? c) && (c <=? 56319).
Definition is_low_surrogate (c : N) : bool := (56320 <=? c) && (c <=? 57343).

(** A code unit that is not a surrogate. *)
Definition quote_unit (c : N) : jsstring :=
  if c =? 8 then [92; chr "b"]
  else if c =? 9 then [92; chr "t"]
  else if c =? 10 then [92; chr "n"]
  else if c =? 12 then [92; chr "f"]
  else if c =? 13 then [92; chr "r"]
  else if c =? 34 then [92; 34]
  else if c =? 92 then [92; 92]
  else if c <? 32 then unicode_escape c
  else [c].

(** Surrogate pairs are kept, lone surrogates are escaped. *)
Fixpoint quote_chars (s : jsstring) : jsstring :=
  match s with
  | [] => []
  | c :: s' =>
    if is_high_surrogate c then
      match s' with
      | d :: s'' =>
        if is_low_surrogate d then c :: d :: quote_chars s''
        else unicode_escape c ++ quote_chars s'
      | [] => unicode_escape c
      end
    else if is_low_surrogate c then unicode_escape c ++ quote_chars s'
    else quote_unit c ++ quote_chars s'
  end.

Definition QuoteJSONString (s : jsstring) : jsstring :=
  34 :: quote_chars s ++ [34].

Fixpoint join (sep : jsstring) (parts : list jsstring) : jsstring :=
  match parts with
  | [] => []
  | [p] => p
  | p :: rest => p ++ sep ++ join sep rest
  end.

(** [JSON.stringify(v)] for the values [parse] builds, without indentation. *)
Fixpoint stringify (v : value) : jsstring :=
  match v with
  | VNull => js "null"
  | VBool true => js "true"
  | VBool false => js "false"
  | VNum n => NumberToJSON n
  | VStr s => QuoteJSONString s
  | VArr items => chr "[" :: join [chr ","] (map stringify items) ++ [chr "]"]
  | VObj props =>
    chr "{" ::
    join [chr ","]
      (map (λ p, QuoteJSONString p.1 ++ chr ":" :: stringify p.2) props)
    ++ [chr "}"]
  end.

End Values.
End JSON.

(** ** Search history in localStorage *)
Module History.
Import Str JSON.

Section History.
Context {H : Host}.

Definition HISTORY_KEY : jsstring := js "math-formula-search-history".
Definition MAX_HISTORY : nat := 10.

(** [localStorage.getItem] is the lookup, [setItem] the insertion. *)
Definition loadHistory (localStorage : gmap jsstring jsstring) : result value :=
  match localStorage !! HISTORY_KEY with
  | Some history => if truthy history then parse history else Return (VArr [])
  | None => Return (VArr [])
  end.

(** [item !== term] for a string [term]. *)
Definition differs (term : jsstring) (item : value) : bool :=
  match item with
  | VStr s => negb (bool_decide (s = term))
  | _ => true
  end.

(** The storage after [saveHistory(term)], or the exception it throws
    (before any write). *)
Definition saveHistory (term : jsstring)
    (localStorage : gmap jsstring jsstring) : result (gmap jsstring jsstring) :=
  if negb (truthy (trim term)) then Return localStorage
  else
    match loadHistory localStorage with
    | Throw e => Throw e
    | Return (VArr items) =>
      let history := List.filter (differs term) items in
      let history := VStr term :: history in
      let history :=
        if bool_decide (MAX_HISTORY < length history)%nat
        then take MAX_HISTORY history else history in
      Return (<[HISTORY_KEY := stringify (VArr history)]> localStorage)
    | Return _ => Throw TypeError
    end.

End History.
End History.

(** ** The page

    The document as the script's selectors see it.  [formulaCards] is the
    list of [.formula-card] elements in document order; a card is its class
    list and its parts in document order: [h4] headings, derivation and
    example content blocks, and other text.  A category is its class list
    and the cards below it, by their index in [formulaCards].  Class names
    and inline style values are plain strings.

    This is the page of the host contract: an element is a card or a
    category and not both, cards do not contain cards, and the headings
    and content blocks of a card lie side by side.  The [h4] of a card is
    optional, as the script meets cards without one by throwing. *)
Module Page.
Import Str.

Record heading := {
  h_text : jsstring;            (* the text written in the h4 *)
  h_icons : list jsstring;      (* the spans appended to it, in order *)
  h_cursor : string;            (* style.cursor *)
  h_userSelect : string;        (* style.userSelect *)
  h_hasToggle : option string;  (* dataset.hasToggle *)
  h_click : list (nat * nat);   (* click listeners: the content part and the
                                   icon span each one closes over *)
}.

Record region := {
  r_display : string;           (* style.display *)
  r_text : jsstring;
}.

Inductive part :=
| Heading (h : heading)
| DerivationContent (r : region)
| ExampleContent (r : region)
| Text (t : jsstring).

Record card := {
  classList : gset string;
  parts : list part;
}.

Record category := {
  cat_classList : gset string;
  cat_cards : list nat;
}.

(** *** Selectors and text *)
Definition heading_textContent (h : heading) : jsstring :=
  h_text h ++ concat (h_icons h).

Definition part_textContent (p : part) : jsstring :=
  match p with
  | Heading h => heading_textContent h
  | DerivationContent r => r_text r
  | ExampleContent r => r_text r
  | Text t => t
  end.

Definition textContent (c : card) : jsstring :=
  concat (part_textContent <$> parts c).

Definition is_heading (p : part) : bool :=
  match p with Heading _ => true | _ => false end.
Definition is_derivation_content (p : part) : bool :=
  match p with DerivationContent _ => true | _ => false end.
Definition is_example_content (p : part) : bool :=
  match p with ExampleContent _ => true | _ => false end.

(** Index of the first part of a kind: [card.querySelector(...)]. *)
Fixpoint first_index (test : part → bool) (ps : list part) : option nat :=
  match ps with
  | [] => None
  | p :: ps' => if test p then Some 0 else S <$> first_index test ps'
  end.

(** [card.querySelector('h4')], with its position. *)
Definition querySelector_h4 (c : card) : option (nat * heading) :=
  i ← first_index is_heading (parts c);
  match parts c !! i with
  | Some (Heading h) => Some (i, h)
  | _ => None
  end.

Definition hidden (cl : gset string) : bool := bool_decide ("hidden" ∈ cl).
Definition classList_add (name : string) (cl : gset string) : gset string :=
  cl ∪ {[name]}.
Definition classList_remove (name : string) (cl : gset string) : gset string :=
  cl ∖ {[name]}.

Definition with_classList (cl : gset string) (c : card) : card :=
  {| classList := cl; parts := parts c |}.
Definition with_parts (ps : list part) (c : card) : card :=
  {| classList := classList c; parts := ps |}.
Definition with_cat_classList (cl : gset string) (c : category) : category :=
  {| cat_classList := cl; cat_cards := cat_cards c |}.

Section Filter.
Context {H : Host}.

(** *** The filter listener (script.js 24-65) *)

(** The body of [formulaCards.forEach]; a card without [h4] throws at
    [card.querySelector('h4').textContent]. *)
Definition filter_card (searchTerm : jsstring) (c : card) : result card :=
  match querySelector_h4 c with
  | None => Throw TypeError
  | Some (_, h4) =>
    let title := toLowerCase (heading_textContent h4) in
    let content := toLowerCase (textContent c) in
    if includes title searchTerm || includes content searchTerm
    then Return (with_classList (classList_remove "hidden" (classList c)) c)
    else Return (with_classList (classList_add "hidden" (classList c)) c)
  end.

(** [formulaCards.forEach]: stops at the first card that throws. *)
Fixpoint filter_cards (searchTerm : jsstring) (cs : list card)
    : list card * result unit :=
  match cs with
  | [] => ([], Return ())
  | c :: cs' =>
    match filter_card searchTerm c with
    | Throw e => (c :: cs', Throw e)
    | Return c' =>
      let (cs'', r) := filter_cards searchTerm cs' in (c' :: cs'', r)
    end
  end.

(** [category.querySelectorAll('.formula-card:not(.hidden)')]. *)
Definition visibleCards (cards : list card) (c : category) : list nat :=
  List.filter
    (λ i, match cards !! i with
          | Some k => negb (hidden (classList k))
          | None => false
          end)
    (cat_cards c).

Definition filter_category (cards : list card) (c : category) : category :=
  if bool_decide (length (visibleCards cards c) = 0)
  then with_cat_classList (classList_add "hidden" (cat_classList c)) c
  else with_cat_classList (classList_remove "hidden" (cat_classList c)) c.

End Filter.
End Page.

(** ** The running page: state, listeners, timers *)
Module App.
Import Str JSON History Page.

(** What a pending timer runs. *)
Inductive callback :=
| Typeset      (* () => MathJax.typesetPromise() *)
| SaveSearch.  (* () => if (this.value.trim()) saveHistory(this.value.trim()) *)

Record timer := {
  timer_id : nat;
  due : nat;                      (* in milliseconds *)
  action : callback;
}.

(** The state after the script was evaluated with the document present:
    the [keydown] listener and the history listener on the search box are
    in place. *)
Record state := {
  formulaCards : list card;
  categories : list category;
  searchBox_value : jsstring;
  searchBox_focus : bool;
  localStorage : gmap jsstring jsstring;
  typeset_listener : bool;        (* the listener of script.js 170 was added *)
  now : nat;
  next_timer : nat;
  timers : list timer;            (* pending, in firing order *)
  searchTimeout : option nat;     (* [None] is undefined *)
  typesets : nat;                 (* calls of MathJax.typesetPromise so far *)
  uncaught : list error;          (* exceptions no listener caught *)
}.

Definition set_cards (cs : list card) (st : state) : state :=
  {| formulaCards := cs; categories := categories st;
     searchBox_value := searchBox_value st; searchBox_focus := searchBox_focus st;
     localStorage := localStorage st; typeset_listener := typeset_listener st;
     now := now st; next_timer := next_timer st; timers := timers st;
     searchTimeout := searchTimeout st; typesets := typesets st;
     uncaught := uncaught st |}.

Definition set_categories (cats : list category) (st : state) : state :=
  {| formulaCards := formulaCards st; categories := cats;
     searchBox_value := searchBox_value st; searchBox_focus := searchBox_focus st;
     localStorage := localStorage st; typeset_listener := typeset_listener st;
     now := now st; next_timer := next_timer st; timers := timers st;
     searchTimeout := searchTimeout st; typesets := typesets st;
     uncaught := uncaught st |}.

Definition set_value (v : jsstring) (st : state) : state :=
  {| formulaCards := formulaCards st; categories := categories st;
     searchBox_value := v; searchBox_focus := searchBox_focus st;
     localStorage := localStorage st; typeset_listener := typeset_listener st;
     now := now st; next_timer := next_timer st; timers := timers st;
     searchTimeout := searchTimeout st; typesets := typesets st;
     uncaught := uncaught st |}.

Definition focus (st : state) : state :=
  {| formulaCards := formulaCards st; categories := categories st;
     searchBox_value := searchBox_value st; searchBox_focus := true;
     localStorage := localStorage st; typeset_listener := typeset_listener st;
     now := now st; next_timer := next_timer st; timers := timers st;
     searchTimeout := searchTimeout st; typesets := typesets st;
     uncaught := uncaught st |}.

Definition set_localStorage (ls : gmap jsstring jsstring) (st : state) : state :=
  {| formulaCards := formulaCards st; categories := categories st;
     searchBox_value := searchBox_value st; searchBox_focus := searchBox_focus st;
     localStorage := ls; typeset_listener := typeset_listener st;
     now := now st; next_timer := next_timer st; timers := timers st;
     searchTimeout := searchTimeout st; typesets := typesets st;
     uncaught := uncaught st |}.

Definition set_typeset_listener (b : bool) (st : state) : state :=
  {| formulaCards := formulaCards st; categories := categories st;
     searchBox_value := searchBox_value st; searchBox_focus := searchBox_focus st;
     localStorage := localStorage st; typeset_listener := b;
     now := now st; next_timer := next_timer st; timers := timers st;
     searchTimeout := searchTimeout st; typesets := typesets st;
     uncaught := uncaught st |}.

Definition set_clock (t next : nat) (q : list timer) (st : state) : state :=
  {| formulaCards := formulaCards st; categories := categories st;
     searchBox_value := searchBox_value st; searchBox_focus := searchBox_focus st;
     localStorage := localStorage st; typeset_listener := typeset_listener st;
     now := t; next_timer := next; timers := q;
     searchTimeout := searchTimeout st; typesets := typesets st;
     uncaught := uncaught st |}.

Definition set_searchTimeout (h : option nat) (st : state) : state :=
  {| formulaCards := formulaCards st; categories := categories st;
     searchBox_value := searchBox_value st; searchBox_focus := searchBox_focus st;
     localStorage := localStorage st; typeset_listener := typeset_listener st;
     now := now st; next_timer := next_timer st; timers := timers st;
     searchTimeout := h; typesets := typesets st;
     uncaught := uncaught st |}.

Definition count_typeset (st : state) : state :=
  {| formulaCards := formulaCards st; categories := categories st;
     searchBox_value := searchBox_value st; searchBox_focus := searchBox_focus st;
     localStorage := localStorage st; typeset_listener := typeset_listener st;
     now := now st; next_timer := next_timer st; timers := timers st;
     searchTimeout := searchTimeout st; typesets := S (typesets st);
     uncaught := uncaught st |}.

Definition report (e : error) (st : state) : state :=
  {| formulaCards := formulaCards st; categories := categories st;
     searchBox_value := searchBox_value st; searchBox_focus := searchBox_focus st;
     localStorage := localStorage st; typeset_listener := typeset_listener st;
     now := now st; next_timer := next_timer st; timers := timers st;
     searchTimeout := searchTimeout st; typesets := typesets st;
     uncaught := uncaught st ++ [e] |}.

(** *** Timers *)

(** A new timer fires after the pending ones that are due no later. *)
Fixpoint enqueue (t : timer) (q : list timer) : list timer :=
  match q with
  | [] => [t]
  | t' :: q' => if (due t' <=? due t)%nat then t' :: enqueue t q' else t :: q
  end.

Definition setTimeout (cb : callback) (delay : nat) (st : state) : nat * state :=
  let t := {| timer_id := next_timer st; due := now st + delay; action := cb |} in
  (next_timer st, set_clock (now st) (S (next_timer st)) (enqueue t (timers st)) st).

Definition clearTimeout (handle : option nat) (st : state) : state :=
  match handle with
  | None => st
  | Some i =>
    set_clock (now st) (next_timer st)
      (filter (λ t, timer_id t ≠ i) (timers st)) st
  end.

Section Listeners.
Context {H : Host}.

(** *** The [input] listeners on the search box, in the order they were
    added: history (script.js 336), filter (24), typeset (170). *)
Definition history_listener (st : state) : state :=
  let st := clearTimeout (searchTimeout st) st in
  let (handle, st) := setTimeout SaveSearch 1000 st in
  set_searchTimeout (Some handle) st.

Definition filter_listener (st : state) : state :=
  let searchTerm := toLowerCase (searchBox_value st) in
  let (cards, r) := filter_cards searchTerm (formulaCards st) in
  let st := set_cards cards st in
  match r with
  | Throw e => report e st
  | Return _ => set_categories (filter_category cards <$> categories st) st
  end.

Definition mathjax_listener (st : state) : state :=
  (setTimeout Typeset 100 st).2.

(** [searchBox.dispatchEvent(new Event('input'))], and what the browser
    does after the user edited the field. *)
Definition dispatch_input (st : state) : state :=
  let st := history_listener st in
  let st := filter_listener st in
  if typeset_listener st then mathjax_listener st else st.

(** *** Timer callbacks *)
Definition run_callback (cb : callback) (st : state) : state :=
  match cb with
  | Typeset => count_typeset st
  | SaveSearch =>
    if truthy (trim (searchBox_value st)) then
      match saveHistory (trim (searchBox_value st)) (localStorage st) with
      | Return ls => set_localStorage ls st
      | Throw e => report e st
      end
    else st
  end.

(** [ms] milliseconds pass: the timers that are due run, in order. *)
Definition elapse (ms : nat) (st : state) : state :=
  let deadline := now st + ms in
  let ready := filter (λ t, due t ≤ deadline) (timers st) in
  let later := filter (λ t, ¬ due t ≤ deadline) (timers st) in
  fold_left (λ st t, run_callback (action t) st) ready
    (set_clock deadline (next_timer st) later st).

(** *** The [keydown] listener (script.js 267-286) *)
Definition keydown_listener (ctrlKey metaKey : bool) (key : string)
    (st : state) : state :=
  let st :=
    if (ctrlKey || metaKey) && bool_decide (key = "k") then focus st else st in
  if bool_decide (key = "Escape") then
    if truthy (searchBox_value st)
    then dispatch_input (set_value [] st)
    else st
  else st.

(** *** Collapsible sections (script.js 94-162) *)
Definition OPEN_ICON : jsstring := [32; 55357; 56637]%N.    (* ' \u{1F53D}' *)
Definition CLOSED_ICON : jsstring := [32; 9654; 65039]%N.   (* ' \u25B6\uFE0F' *)
Definition EXAMPLE_ICON : jsstring := [32; 55357; 56541]%N. (* ' \u{1F4DD}' *)

Definition set_display (d : string) (p : part) : part :=
  match p with
  | DerivationContent r =>
    DerivationContent {| r_display := d; r_text := r_text r |}
  | ExampleContent r =>
    ExampleContent {| r_display := d; r_text := r_text r |}
  | _ => p
  end.

Definition display (p : part) : option string :=
  match p with
  | DerivationContent r => Some (r_display r)
  | ExampleContent r => Some (r_display r)
  | _ => None
  end.

Definition on_heading (f : heading → heading) (p : part) : part :=
  match p with
  | Heading h => Heading (f h)
  | _ => p
  end.

Definition set_icon (i : nat) (text : jsstring) (h : heading) : heading :=
  {| h_text := h_text h; h_icons := <[i := text]> (h_icons h);
     h_cursor := h_cursor h; h_userSelect := h_userSelect h;
     h_hasToggle := h_hasToggle h; h_click := h_click h |}.

(** The click listener of script.js 119-130, added to the heading at
    [title]; it closes over [derivationContent] and [toggleIcon]. *)
Definition toggle (title derivationContent toggleIcon : nat)
    (ps : list part) : list part :=
  match ps !! derivationContent ≫= display with
  | Some d =>
    if bool_decide (d = "none") then
      alter (on_heading (set_icon toggleIcon OPEN_ICON)) title
        (alter (set_display "block") derivationContent ps)
    else
      alter (on_heading (set_icon toggleIcon CLOSED_ICON)) title
        (alter (set_display "none") derivationContent ps)
  | None => ps
  end.

(** A click on the [h4] of a card runs the listeners added to it. *)
Definition click_title (c : card) : card :=
  match querySelector_h4 c with
  | Some (title, h) =>
    with_parts
      (fold_left (λ ps l, toggle title l.1 l.2 ps) (h_click h) (parts c)) c
  | None => c
  end.

Definition click_listener (i : nat) (st : state) : state :=
  set_cards (alter click_title i (formulaCards st)) st.

(** The body of [derivationCards.forEach] (script.js 96-132); without an
    [h4], [title.style] throws after the content was shown. *)
Definition setup_derivation (c : card) : card * result unit :=
  match first_index is_derivation_content (parts c) with
  | None => (c, Return ())
  | Some derivationContent =>
    let ps := alter (set_display "block") derivationContent (parts c) in
    match first_index is_heading ps with
    | None => (with_parts ps c, Throw TypeError)
    | Some title =>
      let decorate h :=
        {| h_text := h_text h; h_icons := h_icons h ++ [OPEN_ICON];
           h_cursor := "pointer"; h_userSelect := "none";
           h_hasToggle := h_hasToggle h;
           h_click := h_click h ++ [(derivationContent, length (h_icons h))] |} in
      (with_parts (alter (on_heading decorate) title ps) c, Return ())
    end
  end.

(** [derivationCards] are the cards of class [derivation]. *)
Fixpoint setup_derivations (cs : list card) : list card * result unit :=
  match cs with
  | [] => ([], Return ())
  | c :: cs' =>
    if bool_decide ("derivation" ∈ classList c) then
      match setup_derivation c with
      | (c', Throw e) => (c' :: cs', Throw e)
      | (c', Return _) =>
        let (cs'', r) := setup_derivations cs' in (c' :: cs'', r)
      end
    else
      let (cs'', r) := setup_derivations cs' in (c :: cs'', r)
  end.

Definition has_toggle (h : heading) : bool :=
  match h_hasToggle h with
  | Some v => negb (bool_decide (v = EmptyString))
  | None => false
  end.

(** The body of [exampleContents.forEach] (script.js 138-162) for the
    example content at [exampleContent]; no listener is added. *)
Definition setup_example (exampleContent : nat) (ps : list part) : list part :=
  let ps := alter (set_display "block") exampleContent ps in
  match first_index is_heading ps with
  | Some title =>
    let decorate h :=
      if has_toggle h then h
      else
        {| h_text := h_text h; h_icons := h_icons h ++ [EXAMPLE_ICON];
           h_cursor := "pointer"; h_userSelect := "none";
           h_hasToggle := Some "true"; h_click := h_click h |} in
    alter (on_heading decorate) title ps
  | None => ps
  end.

Definition setup_examples (c : card) : card :=
  with_parts
    (fold_left
       (λ ps i,
          match ps !! i with
          | Some (ExampleContent _) => setup_example i ps
          | _ => ps
          end)
       (seq 0 (length (parts c))) (parts c)) c.

(** The rest of the [DOMContentLoaded] listener after it added the filter
    listener; [mathJax] tells whether [window.MathJax] is there. *)
Definition DOMContentLoaded (mathJax : bool) (st : state) : state :=
  let (cards, r) := setup_derivations (formulaCards st) in
  match r with
  | Throw e => report e (set_cards cards st)
  | Return _ =>
    set_typeset_listener mathJax (set_cards (setup_examples <$> cards) st)
  end.

(** The page as loaded, before [DOMContentLoaded]. *)
Definition loaded (cards : list card) (cats : list category)
    (storage : gmap jsstring jsstring) : state :=
  {| formulaCards := cards; categories := cats;
     searchBox_value := []; searchBox_focus := false;
     localStorage := storage; typeset_listener := false;
     now := 0; next_timer := 1; timers := [];
     searchTimeout := None; typesets := 0; uncaught := [] |}.

Definition start (mathJax : bool) (cards : list card) (cats : list category)
    (storage : gmap jsstring jsstring) : state :=
  DOMContentLoaded mathJax (loaded cards cats storage).

(** *** Events *)
Inductive event :=
| Input (text : jsstring)       (* the user edits the search box *)
| KeyDown (ctrlKey metaKey : bool) (key : string)
| Click (card : nat)            (* on the h4 of a formula card *)
| Elapse (ms : nat).

Definition step (st : state) (ev : event) : state :=
  match ev with
  | Input text => dispatch_input (set_value text st)
  | KeyDown ctrlKey metaKey key => keydown_listener ctrlKey metaKey key st
  | Click i => click_listener i st
  | Elapse ms => elapse ms st
  end.

Definition run (st : state) (evs : list event) : state := fold_left step evs st.

End Listeners.
End App.

(** ** Vocabulary of the properties

    The definitions below are not code of the script: they name what the
    theorems say about it. *)
Import Str JSON History Page App.

Set Warnings "-clear-no-such-hyp".

(** [p] occurs somewhere in [s]. *)
Definition is_substring (p s : jsstring) : Prop := ∃ pre post, s = pre ++ p ++ post.

(** An entry is visible when its class list has no [hidden]. *)
Definition visible (cl : gset string) : Prop := "hidden" ∉ cl.

(** The card has an [h4]. *)
Definition has_h4 (e : card) : Prop := is_Some (querySelector_h4 e).

#[global] Instance has_h4_dec (e : card) : Decision (has_h4 e).
Proof. unfold has_h4. apply _. Defined.

(** Two class lists that differ at most in [hidden]. *)
Definition same_but_hidden (cl cl' : gset string) : Prop :=
  ∀ name, name ≠ "hidden" → name ∈ cl' ↔ name ∈ cl.

(** The history after [term] was searched, in the words of the
    specification: drop the term, put it first, keep the first ten. *)
Definition remember (term : jsstring) (h : list jsstring) : list jsstring :=
  take MAX_HISTORY (term :: filter (λ item, item ≠ term) h).

(** One more search, without the bound on the length; blank terms are not
    recorded. *)
Definition push (h : list jsstring) (term : jsstring) : list jsstring :=
  if truthy (trim term) then term :: filter (λ item, item ≠ term) h else h.

(** The terms searched so far, each once, the most recent first. *)
Definition recent (saves : list jsstring) : list jsstring :=
  fold_left push saves [].

#[global] Instance callback_eq_dec : EqDecision callback.
Proof. solve_decision. Defined.

(** Timers of one kind that are pending. *)
Definition pending (cb : callback) (st : state) : list timer :=
  filter (λ t, action t = cb) (timers st).

(** What every reachable state satisfies about its timers. *)
Record timers_ok (st : state) : Prop := {
  ids_fresh : ∀ t, t ∈ timers st → timer_id t < next_timer st;
  handle_fresh : ∀ i, searchTimeout st = Some i → i < next_timer st;
  ids_NoDup : NoDup (timer_id <$> timers st);
  save_is_handle : ∀ t, t ∈ timers st →
    action t = SaveSearch ↔ searchTimeout st = Some (timer_id t);
}.

(** A part without click listener, and a card as written in the page: no
    script has added a listener yet. *)
Definition quiet (p : part) : Prop :=
  match p with Heading h => h_click h = [] | _ => True end.

Definition no_listeners (e : card) : Prop := Forall quiet (parts e).

(** The card has its heading at [title], with one click listener, for the
    derivation content at [content], which is displayed as [d]. *)
Definition toggle_ready (e : card) (title content : nat) (d : string) : Prop :=
  first_index is_heading (parts e) = Some title ∧
  (∃ h icon, parts e !! title = Some (Heading h) ∧ h_click h = [(content, icon)]) ∧
  (∃ r, parts e !! content = Some (DerivationContent r) ∧ r_display r = d).

(** What the example loop keeps of a part. *)
Definition evolves (p p' : part) : Prop :=
  match p, p' with
  | Heading h, Heading h' => h_click h' = h_click h
  | DerivationContent r, DerivationContent r' => r' = r
  | ExampleContent _, ExampleContent _ => True
  | Text _, Text _ => True
  | _, _ => False
  end.

(** The display of part [j] of card [i]. *)
Definition display_at (st : state) (i j : nat) : option string :=
  formulaCards st !! i ≫= λ e, parts e !! j ≫= display.

Section Vocabulary.
Context {H : Host}.

(** The title and the full text of an entry, lower-cased. *)
Definition title (e : card) : jsstring :=
  match querySelector_h4 e with
  | Some (_, h4) => toLowerCase (heading_textContent h4)
  | None => []
  end.

Definition fullText (e : card) : jsstring := toLowerCase (textContent e).

(** The array of strings the history is stored as. *)
Definition strings (h : list jsstring) : value := VArr (VStr <$> h).

(** [saveHistory] called for each term in turn. *)
Fixpoint save_all (terms : list jsstring) (localStorage : gmap jsstring jsstring)
    : result (gmap jsstring jsstring) :=
  match terms with
  | [] => Return localStorage
  | term :: terms' =>
    match saveHistory term localStorage with
    | Return localStorage' => save_all terms' localStorage'
    | Throw e => Throw e
    end
  end.

(** What the element and member loops need from the value parser: on
    texts up to [bound] it has depth left and consumes something. *)
Definition progresses (pv : jsstring → presult value) (bound : nat) : Prop :=
  ∀ t, length t ≤ bound →
    pv t ≠ OutOfFuel ∧ ∀ v r, pv t = Parsed v r → length r < length t.

End Vocabulary.

(** ** A small page to run the script on *)
Module Demo.
Local Open Scope N_scope.

Definition ascii_lower (c : N) : N :=
  if (65 <=? c) && (c <=? 90) then c + 32 else c.

Definition ascii_toLowerCase (s : jsstring) : jsstring := ascii_lower <$> s.

(** A host for ASCII pages: the letters A-Z are lower-cased, a Number is
    kept as the literal that denotes it. *)
Definition ascii_host : Host :=
  {| number := jsstring;
     StringToNumber := λ lit, lit;
     NumberToJSON := λ n, n;
     toLowerCase := ascii_toLowerCase;
     toLowerCase_empty := eq_refl |}.

Definition h4 (text : string) : part :=
  Heading {| h_text := js text; h_icons := []; h_cursor := EmptyString;
             h_userSelect := EmptyString; h_hasToggle := None; h_click := [] |}.

Definition block (text : string) : region :=
  {| r_display := EmptyString; r_text := js text |}.

Definition sine_rule : card :=
  {| classList := {["formula-card"; "derivation"]};
     parts := [h4 "Sine Rule"; Text (js "a/sin A = b/sin B");
               DerivationContent (block "Compare two heights.");
               ExampleContent (block "A = 30, a = 1")] |}.

Definition pythagoras : card :=
  {| classList := {["formula-card"]};
     parts := [h4 "Pythagorean Theorem"; Text (js "a^2 + b^2 = c^2");
               ExampleContent (block "3, 4, 5")] |}.

Definition trigonometry : category :=
  {| cat_classList := {["category"]}; cat_cards := [0%nat] |}.
Definition geometry : category :=
  {| cat_classList := {["category"]}; cat_cards := [1%nat] |}.

(** The page once [DOMContentLoaded] ran, with MathJax present and nothing
    stored. *)
Definition page : state :=
  start true [sine_rule; pythagoras] [trigonometry; geometry] ∅.

(** Two keystrokes 50 ms apart. *)
Definition typing : state :=
  run (H := ascii_host) page [Input (js "s"); Elapse 50; Input (js "si")].

(** The page with [sin] in the search box. *)
Definition searching : state := step (H := ascii_host) page (Input (js "sin")).

(** A string literal of JSON text. *)
Definition quoted (s : string) : jsstring := 34 :: js s ++ [34].

(** The JSON text of the array of [cos] and [sin], with spaces. *)
Definition stored_text : jsstring :=
  js "[ " ++ quoted "cos" ++ js ", " ++ quoted "sin" ++ js " ]".

Definition stored : gmap jsstring jsstring := <[HISTORY_KEY := stored_text]> ∅.

(** Eleven distinct terms. *)
Definition letters : list jsstring :=
  js <$> ["a"; "b"; "c"; "d"; "e"; "f"; "g"; "h"; "i"; "j"; "k"]%string.

End Demo.

(** * Properties *)

(** ** Strings *)
Section StrFacts.
Local Open Scope N_scope.

Lemma startsWith_spec (s p : jsstring) :
  startsWith s p = true ↔ ∃ post, s = p ++ post.
Proof.
  revert s. induction p as [|x p IH]; intros s; simpl.
  - split; [by exists s | done].
  - destruct s as [|y s].
    + split; [done | intros [post Hp]; discriminate].
    + rewrite andb_true_iff, N.eqb_eq, IH. split.
      * intros [-> [post ->]]. eauto.
      * intros [post [= -> ->]]. eauto.
Qed.

Lemma includes_spec (s p : jsstring) :
  includes s p = true ↔ is_substring p s.
Proof.
  unfold is_substring. induction s as [|y s IH].
  - simpl. rewrite orb_false_r, startsWith_spec. split.
    + intros [post Hp]. exists [], post. done.
    + intros (pre & post & Hp). destruct pre; [eauto |discriminate].
  - cbn [includes]. rewrite orb_true_iff, IH, startsWith_spec. split.
    + intros [[post Hp] | (pre & post & ->)].
      * exists [], post. done.
      * exists (y :: pre), post. done.
    + intros (pre & post & Hp). destruct pre as [|z pre].
      * left. eauto.
      * right. injection Hp as -> ->. eauto.
Qed.

Lemma includes_empty (s : jsstring) : includes s [] = true.
Proof. apply includes_spec. exists [], s. done. Qed.

End StrFacts.

(** ** JSON: what is stringified parses back *)
Section JsonFacts.
Context {H : Host}.
Local Open Scope N_scope.

Lemma hex_value_digit (d : N) : d < 16 → hex_value (hex_digit d) = Some d.
Proof.
  intros Hd. unfold hex_value, hex_digit.
  destruct (N.ltb_spec d 10).
  - replace ((48 <=? 48 + d) && (48 + d <=? 57)) with true.
    + f_equal. lia.
    + symmetry. apply andb_true_iff. split; apply N.leb_le; lia.
  - replace ((48 <=? 87 + d) && (87 + d <=? 57)) with false.
    + replace ((97 <=? 87 + d) && (87 + d <=? 102)) with true.
      * f_equal. lia.
      * symmetry. apply andb_true_iff. split; apply N.leb_le; lia.
    + symmetry. apply andb_false_iff. right. apply N.leb_gt. lia.
Qed.

Lemma hex4_escape (c : N) :
  c < 65536 →
  hex4 (hex_digit (c / 4096 mod 16)) (hex_digit (c / 256 mod 16))
       (hex_digit (c / 16 mod 16)) (hex_digit (c mod 16)) = Some c.
Proof.
  intros Hc. unfold hex4.
  rewrite !hex_value_digit by (apply N.mod_lt; lia). simpl. f_equal.
  zify. Z.to_euclidean_division_equations. lia.
Qed.

Lemma parse_unicode_escape (c : N) (t : jsstring) :
  c < 65536 →
  parse_string_chars (unicode_escape c ++ t) = cons_char c (parse_string_chars t).
Proof.
  intros Hc. unfold unicode_escape. cbn [app parse_string_chars].
  change (92 =? 34) with false. change (92 =? 92) with true.
  change (chr "u" =? chr "u") with true. cbv iota.
  by rewrite hex4_escape.
Qed.

Lemma parse_verbatim (c : N) (t : jsstring) :
  c ≠ 34 → c ≠ 92 → 32 ≤ c →
  parse_string_chars (c :: t) = cons_char c (parse_string_chars t).
Proof.
  intros H1 H2 H3. cbn [parse_string_chars].
  destruct (N.eqb_spec c 34); [done|]. destruct (N.eqb_spec c 92); [done|].
  destruct (N.ltb_spec c 32); [lia | done].
Qed.

Lemma parse_quote_unit (c : N) (t : jsstring) :
  parse_string_chars (quote_unit c ++ t) = cons_char c (parse_string_chars t).
Proof.
  unfold quote_unit.
  repeat (match goal with |- context [N.eqb c ?k] => destruct (N.eqb_spec c k) as [->|] end;
          [reflexivity|]).
  destruct (N.ltb_spec c 32).
  - apply parse_unicode_escape. lia.
  - by apply parse_verbatim.
Qed.

Lemma parse_quote_chars (s t : jsstring) :
  parse_string_chars (quote_chars s ++ 34 :: t) = Some (s, t).
Proof.
  cut (∀ n s, (length s < n)%nat → parse_string_chars (quote_chars s ++ 34 :: t) = Some (s, t)).
  { intros Hn. apply (Hn (S (length s))). lia. }
  clear s. intros n. induction n as [|n IH]; intros s Hlen; [lia|].
  destruct s as [|c s]; [done|]. cbn [quote_chars].
  assert (Hsur : ∀ c r, is_high_surrogate c || is_low_surrogate c = true →
    parse_string_chars (unicode_escape c ++ r) = cons_char c (parse_string_chars r)).
  { intros c' r Hc'. apply parse_unicode_escape.
    unfold is_high_surrogate, is_low_surrogate in Hc'.
    apply orb_true_iff in Hc' as [Hc'|Hc']; apply andb_true_iff in Hc' as [_ Hc'];
      apply N.leb_le in Hc'; lia. }
  assert (Hkeep : ∀ c r, is_high_surrogate c || is_low_surrogate c = true →
    parse_string_chars (c :: r) = cons_char c (parse_string_chars r)).
  { intros c' r Hc'. apply parse_verbatim;
    unfold is_high_surrogate, is_low_surrogate in Hc';
    apply orb_true_iff in Hc' as [Hc'|Hc']; apply andb_true_iff in Hc' as [Hc' _];
      apply N.leb_le in Hc'; lia. }
  simpl in Hlen.
  destruct (is_high_surrogate c) eqn:Hhi.
  - destruct s as [|d s].
    + rewrite Hsur by (by rewrite Hhi). done.
    + destruct (is_low_surrogate d) eqn:Hlo.
      * cbn [app]. rewrite Hkeep by (by rewrite Hhi).
        rewrite Hkeep by (rewrite Hlo; apply orb_true_r).
        rewrite IH by (simpl in *; lia). done.
      * rewrite <- app_assoc, Hsur by (by rewrite Hhi).
        rewrite IH by (simpl in *; lia). done.
  - destruct (is_low_surrogate c) eqn:Hlo.
    + rewrite <- app_assoc, Hsur by (rewrite Hlo; apply orb_true_r).
      rewrite IH by lia. done.
    + rewrite <- app_assoc, parse_quote_unit, IH by lia. done.
Qed.

Lemma parse_value_string (f : nat) (s t : jsstring) :
  parse_value (S f) (QuoteJSONString s ++ t) = Parsed (VStr s) t.
Proof.
  unfold QuoteJSONString. cbn [app parse_value skip_ws].
  change (is_json_ws 34) with false. cbv iota.
  change (34 =? chr "[") with false. change (34 =? chr "{") with false.
  change (34 =? 34) with true. cbv iota.
  rewrite <- app_assoc. cbn [app]. by rewrite parse_quote_chars.
Qed.

Lemma parse_elements_strings (f n : nat) (l : list jsstring) (t : jsstring) :
  l ≠ [] → (length l ≤ n)%nat →
  parse_elements (parse_value (S f)) n
    (join [chr ","] (QuoteJSONString <$> l) ++ chr "]" :: t)
  = Parsed (VStr <$> l) t.
Proof.
  revert n. induction l as [|s l IH]; intros n Hne Hlen; [done|].
  destruct n as [|n]; [simpl in Hlen; lia|].
  destruct l as [|s' l].
  - cbn [fmap list_fmap join parse_elements].
    rewrite parse_value_string. done.
  - cbn [fmap list_fmap join] in *. cbn [parse_elements].
    rewrite <- !app_assoc, parse_value_string.
    cbn [app skip_ws]. change (is_json_ws (chr ",")) with false. cbv iota.
    change (chr "," =? chr ",") with true. cbv iota.
    rewrite IH; [done | done | simpl in *; lia].
Qed.

Lemma length_join (sep : jsstring) (l : list jsstring) :
  Forall (λ p, p ≠ []) l → (length l ≤ length (join sep l))%nat.
Proof.
  induction 1 as [|p l Hp _ IH]; [done|].
  destruct l as [|q l].
  - simpl. destruct p; [done | simpl; lia].
  - change (join sep (p :: q :: l)) with (p ++ sep ++ join sep (q :: l)).
    rewrite !length_app. destruct p; [done|]. simpl in *. lia.
Qed.

Lemma stringify_strings (h : list jsstring) :
  stringify (strings h) = chr "[" :: join [chr ","] (QuoteJSONString <$> h) ++ [chr "]"].
Proof.
  unfold strings. cbn [stringify]. do 2 f_equal.
  rewrite <- list_fmap_compose. f_equal.
Qed.

Lemma parse_value_array (f : nat) (s1 s2 : jsstring) (d : N) :
  skip_ws s1 = d :: s2 → d ≠ chr "]" →
  parse_value (S f) (chr "[" :: s1) =
  match parse_elements (parse_value f) f s1 with
  | Parsed vs r => Parsed (VArr vs) r
  | Unexpected => Unexpected
  | OutOfFuel => OutOfFuel
  end.
Proof.
  intros Hs Hd. cbn [parse_value skip_ws]. change (is_json_ws (chr "[")) with false.
  cbv iota. change (chr "[" =? chr "[") with true. cbv iota. rewrite Hs.
  by destruct (N.eqb_spec d (chr "]")).
Qed.

Lemma parse_stringify_strings (h : list jsstring) :
  parse (stringify (strings h)) = Return (strings h).
Proof.
  rewrite stringify_strings. unfold parse.
  destruct h as [|s h]; [done|].
  set (body := join [chr ","] (QuoteJSONString <$> s :: h)).
  assert (∃ r, skip_ws (body ++ [chr "]"]) = 34 :: r) as [r Hr].
  { unfold body. cbn [fmap list_fmap]. destruct (QuoteJSONString <$> h); simpl; eauto. }
  assert (Hlen : (length (s :: h) ≤ length body)%nat).
  { unfold body. rewrite <- (length_fmap QuoteJSONString (s :: h)).
    apply length_join. apply Forall_fmap, Forall_true. done. }
  cbn [length]. rewrite (parse_value_array _ _ _ _ Hr) by done.
  rewrite length_app. destruct (length body) as [|f] eqn:Hf; [simpl in Hlen; lia|].
  cbn [Nat.add]. unfold body. rewrite parse_elements_strings; [done|done|].
  simpl in *. lia.
Qed.
End JsonFacts.

(** ** JSON: the parser has recursion depth to spare *)
Section Fuel.
Context {H : Host}.
Local Open Scope N_scope.

Lemma skip_ws_length (s : jsstring) : (length (skip_ws s) ≤ length s)%nat.
Proof. induction s as [|c s IH]; simpl; [lia|]. destruct (is_json_ws c); simpl; lia. Qed.

Lemma skip_ws_cons_length (s s' : jsstring) (c : N) :
  skip_ws s = c :: s' → (length s' < length s)%nat.
Proof. intros Hs. pose proof (skip_ws_length s) as Hl. rewrite Hs in Hl. simpl in Hl. lia. Qed.

Lemma cons_char_inv c o str r :
  cons_char c o = Some (str, r) → ∃ str', o = Some (str', r) ∧ str = c :: str'.
Proof. destruct o as [[str' r']|]; simpl; [|done]. intros [= <- <-]. eauto. Qed.

Lemma parse_string_chars_length (s str r : jsstring) :
  parse_string_chars s = Some (str, r) → (length r < length s)%nat.
Proof.
  cut (∀ n s str r, (length s < n)%nat →
         parse_string_chars s = Some (str, r) → (length r < length s)%nat).
  { intros Hn. apply (Hn (S (length s))). lia. }
  clear. intros n. induction n as [|n IH]; intros s str r Hlen; [lia|].
  destruct s as [|c s]; [done|]. cbn [parse_string_chars]. simpl in Hlen.
  destruct (c =? 34); [intros [= <- <-]; simpl; lia|].
  destruct (c =? 92).
  - destruct s as [|e s]; [done|]. destruct (e =? chr "u").
    + destruct s as [|h1 [|h2 [|h3 [|h4 s]]]]; try done.
      destruct (hex4 h1 h2 h3 h4); [|done].
      intros (str' & Hp & _)%cons_char_inv. apply IH in Hp; simpl in *; lia.
    + destruct (simple_escape e); [|done].
      intros (str' & Hp & _)%cons_char_inv. apply IH in Hp; simpl in *; lia.
  - destruct (c <? 32); [done|].
    intros (str' & Hp & _)%cons_char_inv. apply IH in Hp; simpl in *; lia.
Qed.

Lemma span_digits_length (s : jsstring) :
  (length (span_digits s).1 + length (span_digits s).2 = length s)%nat.
Proof.
  induction s as [|c s IH]; [done|]. simpl. destruct (is_digit c); [|done].
  destruct (span_digits s). simpl in *. lia.
Qed.

Lemma scan_digits1_length (s ds r : jsstring) :
  scan_digits1 s = Some (ds, r) → (length r < length s)%nat.
Proof.
  unfold scan_digits1. pose proof (span_digits_length s) as Hl.
  destruct (span_digits s) as [[|d ds'] r']; [done|].
  intros [= <- <-]. simpl in *. lia.
Qed.

Lemma scan_int_length (s i r : jsstring) :
  scan_int s = Some (i, r) → (length r < length s)%nat.
Proof.
  destruct s as [|c s]; [done|]. unfold scan_int.
  destruct (c =? 48); [intros [= <- <-]; simpl; lia|]. apply scan_digits1_length.
Qed.

Lemma scan_frac_length (s f r : jsstring) :
  scan_frac s = Some (f, r) → (length r ≤ length s)%nat.
Proof.
  destruct s as [|c s]; [by intros [= <- <-]|]. unfold scan_frac.
  destruct (c =? chr "."); [|by intros [= <- <-]].
  destruct (scan_digits1 s) as [[ds r']|] eqn:Hd; [|done].
  intros [= <- <-]. apply scan_digits1_length in Hd. simpl. lia.
Qed.

Lemma scan_exp_length (s e r : jsstring) :
  scan_exp s = Some (e, r) → (length r ≤ length s)%nat.
Proof.
  destruct s as [|c s]; [by intros [= <- <-]|]. unfold scan_exp.
  destruct ((c =? chr "e") || (c =? chr "E")); [|by intros [= <- <-]].
  assert (∀ t ds r', scan_digits1 t = Some (ds, r') → (length t ≤ length s → length r' ≤ S (length s)))%nat
    as Hd by (intros t ds r' Ht%scan_digits1_length; lia).
  destruct s as [|d t].
  - destruct (scan_digits1 []) as [[ds r']|] eqn:Hs; [|done]. intros [= <- <-]. eauto.
  - destruct ((d =? chr "+") || (d =? chr "-")).
    + destruct (scan_digits1 t) as [[ds r']|] eqn:Hs; [|done]. intros [= <- <-].
      simpl. eapply Hd in Hs; simpl in *; lia.
    + destruct (scan_digits1 (d :: t)) as [[ds r']|] eqn:Hs; [|done]. intros [= <- <-].
      simpl. eapply Hd in Hs; simpl in *; lia.
Qed.

Lemma scan_number_length (s lit r : jsstring) :
  scan_number s = Some (lit, r) → (length r < length s)%nat.
Proof.
  unfold scan_number.
  set (p := match s with
            | [] => ([], s)
            | c :: s' => if c =? chr "-" then ([c], s') else ([], s)
            end).
  assert (length p.2 ≤ length s)%nat as Hp.
  { unfold p. destruct s as [|c s]; [done|]. destruct (c =? chr "-"); simpl; lia. }
  destruct p as [sign s0]. simpl in Hp.
  destruct (scan_int s0) as [[i s1]|] eqn:Hi; simpl; [|done].
  destruct (scan_frac s1) as [[f s2]|] eqn:Hf; simpl; [|done].
  destruct (scan_exp s2) as [[e s3]|] eqn:He; simpl; [|done].
  intros [= <- <-].
  apply scan_int_length in Hi. apply scan_frac_length in Hf.
  apply scan_exp_length in He. lia.
Qed.

Lemma strip_prefix_length (p s r : jsstring) :
  strip_prefix p s = Some r → (length r + length p = length s)%nat.
Proof.
  revert s. induction p as [|x p IH]; intros s; simpl.
  - intros [= <-]. lia.
  - destruct s as [|y s]; [done|]. destruct (x =? y); [|done].
    intros Hr%IH. simpl. lia.
Qed.

Lemma parse_elements_fuel pv bound n t :
  progresses pv bound → (length t ≤ bound)%nat → (length t < n)%nat →
  parse_elements pv n t ≠ OutOfFuel ∧
  ∀ vs r, parse_elements pv n t = Parsed vs r → (length r < length t)%nat.
Proof.
  intros Hpv. revert t. induction n as [|n IH]; intros t Hb Hn; [lia|].
  cbn [parse_elements]. destruct (Hpv t Hb) as [Hne Hlt].
  destruct (pv t) as [v r| |]; [|done|done].
  specialize (Hlt v r eq_refl).
  destruct (skip_ws r) as [|c r'] eqn:Hr; [done|].
  apply skip_ws_cons_length in Hr.
  destruct (c =? chr ",").
  - destruct (IH r') as [Hne' Hlt']; [lia|lia|].
    destruct (parse_elements pv n r') as [vs r''| |]; [|done|done].
    split; [done|]. intros ? ? [= <- <-]. specialize (Hlt' vs r'' eq_refl). lia.
  - destruct (c =? chr "]"); [|done].
    split; [done|]. intros ? ? [= <- <-]. lia.
Qed.

Lemma parse_members_fuel pv bound n t :
  progresses pv bound → (length t ≤ bound)%nat → (length t < n)%nat →
  parse_members pv n t ≠ OutOfFuel ∧
  ∀ ms r, parse_members pv n t = Parsed ms r → (length r < length t)%nat.
Proof.
  intros Hpv. revert t. induction n as [|n IH]; intros t Hb Hn; [lia|].
  cbn [parse_members].
  destruct (skip_ws t) as [|q s1] eqn:Ht; [done|]. apply skip_ws_cons_length in Ht.
  destruct (q =? 34); [|done].
  destruct (parse_string_chars s1) as [[k s2]|] eqn:Hk; [|done].
  apply parse_string_chars_length in Hk.
  destruct (skip_ws s2) as [|c s3] eqn:Hs2; [done|]. apply skip_ws_cons_length in Hs2.
  destruct (c =? chr ":"); [|done].
  destruct (Hpv s3) as [Hne Hlt]; [lia|].
  destruct (pv s3) as [v r| |]; [|done|done].
  specialize (Hlt v r eq_refl).
  destruct (skip_ws r) as [|d r'] eqn:Hr; [done|]. apply skip_ws_cons_length in Hr.
  destruct (d =? chr ",").
  - destruct (IH r') as [Hne' Hlt']; [lia|lia|].
    destruct (parse_members pv n r') as [ms r''| |]; [|done|done].
    split; [done|]. intros ? ? [= <- <-]. specialize (Hlt' ms r'' eq_refl). lia.
  - destruct (d =? chr "}"); [|done].
    split; [done|]. intros ? ? [= <- <-]. lia.
Qed.

Lemma parse_literal_length lit v s v' r :
  lit ≠ [] → parse_literal lit v s = Parsed v' r → (length r < length s)%nat.
Proof.
  unfold parse_literal. intros Hlit.
  destruct (strip_prefix lit s) as [r'|] eqn:Hs; [|done].
  intros [= _ <-]. apply strip_prefix_length in Hs. destruct lit; [done|]. simpl in *. lia.
Qed.

Lemma parse_literal_fuel lit v s : parse_literal lit v s ≠ OutOfFuel.
Proof. unfold parse_literal. by destruct (strip_prefix lit s). Qed.

Lemma parse_value_fuel (f : nat) : progresses (parse_value (S f)) f.
Proof.
  induction f as [f IH] using lt_wf_ind. intros s Hs.
  cbn [parse_value].
  destruct (skip_ws s) as [|c s1] eqn:Hsk; [done|].
  pose proof (skip_ws_length s) as Hsl. rewrite Hsk in Hsl. simpl in Hsl.
  assert (Hloop : ∀ s1' : jsstring, (length s1' < length s)%nat → ∃ f', f = S f' ∧
            progresses (parse_value f) (length s1') ∧ (length s1' < f)%nat).
  { intros s1' Hl. destruct f as [|f']; [lia|]. exists f'. split; [done|]. split; [|lia].
    intros t Ht. apply (IH f'); lia. }
  destruct (c =? chr "[").
  { destruct (skip_ws s1) as [|d s2] eqn:Hs1; [done|].
    apply skip_ws_cons_length in Hs1.
    destruct (d =? chr "]"); [split; [done|intros ? ? [= _ <-]; lia]|].
    destruct (Hloop s1) as (f' & -> & Hpv & Hlt); [lia|].
    destruct (parse_elements_fuel _ _ (S f') s1 Hpv) as [Hne Hlen]; [lia|lia|].
    destruct (parse_elements _ _ s1) as [vs r| |]; [|done|done].
    split; [done|]. intros ? ? [= _ <-]. specialize (Hlen vs r eq_refl). lia. }
  destruct (c =? chr "{").
  { destruct (skip_ws s1) as [|d s2] eqn:Hs1; [done|].
    apply skip_ws_cons_length in Hs1.
    destruct (d =? chr "}"); [split; [done|intros ? ? [= _ <-]; lia]|].
    destruct (Hloop s1) as (f' & -> & Hpv & Hlt); [lia|].
    destruct (parse_members_fuel _ _ (S f') s1 Hpv) as [Hne Hlen]; [lia|lia|].
    destruct (parse_members _ _ s1) as [ms r| |]; [|done|done].
    split; [done|]. intros ? ? [= _ <-]. specialize (Hlen ms r eq_refl). lia. }
  destruct (c =? 34).
  { destruct (parse_string_chars s1) as [[str r]|] eqn:Hp; [|done].
    apply parse_string_chars_length in Hp.
    split; [done|]. intros ? ? [= _ <-]. lia. }
  destruct ((c =? chr "-") || is_digit c).
  { destruct (scan_number (c :: s1)) as [[lit r]|] eqn:Hn; [|done].
    apply scan_number_length in Hn. simpl in Hn.
    split; [done|]. intros ? ? [= _ <-]. lia. }
  assert (Hlit : ∀ lit v, lit ≠ [] →
    parse_literal lit v (c :: s1) ≠ OutOfFuel ∧
    ∀ v' r, parse_literal lit v (c :: s1) = Parsed v' r → (length r < length s)%nat).
  { intros lit v Hl. split; [apply parse_literal_fuel|].
    intros v' r Hp%parse_literal_length; [simpl in Hp; lia | done]. }
  destruct (c =? chr "n"); [by apply Hlit|].
  destruct (c =? chr "t"); [by apply Hlit|].
  destruct (c =? chr "f"); [by apply Hlit|]. done.
Qed.

(** The recursion depth [parse] starts with is never used up: every
    SyntaxError it throws comes from the grammar. *)
Lemma parse_never_out_of_fuel (text : jsstring) :
  parse_value (S (length text)) text ≠ OutOfFuel.
Proof. apply (parse_value_fuel (length text)). done. Qed.

End Fuel.

(** ** Search history *)
Section HistoryFacts.
Context {H : Host}.

Lemma truthy_true (s : jsstring) : truthy s = true ↔ s ≠ [].
Proof. by destruct s. Qed.

Lemma truthy_false (s : jsstring) : truthy s = false ↔ s = [].
Proof. by destruct s. Qed.

Lemma loadHistory_absent (ls : gmap jsstring jsstring) :
  ls !! HISTORY_KEY = None → loadHistory ls = Return (strings []).
Proof. intros Hls. unfold loadHistory. by rewrite Hls. Qed.

Lemma loadHistory_present (ls : gmap jsstring jsstring) (s : jsstring) :
  ls !! HISTORY_KEY = Some s → s ≠ [] → loadHistory ls = parse s.
Proof.
  intros Hls Hs. unfold loadHistory. rewrite Hls.
  by apply truthy_true in Hs as ->.
Qed.

Lemma loadHistory_stored (ls : gmap jsstring jsstring) (h : list jsstring) :
  loadHistory (<[HISTORY_KEY := stringify (strings h)]> ls) = Return (strings h).
Proof.
  rewrite (loadHistory_present _ (stringify (strings h))).
  - apply parse_stringify_strings.
  - apply lookup_insert_eq.
  - by rewrite stringify_strings.
Qed.

Lemma filter_differs (term : jsstring) (h : list jsstring) :
  List.filter (differs term) (VStr <$> h) = VStr <$> filter (λ item, item ≠ term) h.
Proof.
  induction h as [|x h IH]; [done|].
  cbn [fmap list_fmap List.filter differs]. rewrite filter_cons.
  destruct (decide (x ≠ term)) as [Hx|Hx].
  - rewrite bool_decide_eq_false_2 by done. cbn. by rewrite IH.
  - rewrite bool_decide_eq_true_2 by (by apply dec_stable). cbn. by rewrite IH.
Qed.

Lemma truncate_take {A} (l : list A) :
  (if bool_decide (MAX_HISTORY < length l) then take MAX_HISTORY l else l)
  = take MAX_HISTORY l.
Proof. case_bool_decide; [done|]. rewrite take_ge; [done|lia]. Qed.

Lemma saveHistory_blank (term : jsstring) (ls : gmap jsstring jsstring) :
  trim term = [] → saveHistory term ls = Return ls.
Proof. intros Ht. unfold saveHistory. by rewrite Ht. Qed.

Lemma saveHistory_array (term : jsstring) (ls : gmap jsstring jsstring)
    (items : list value) :
  trim term ≠ [] → loadHistory ls = Return (VArr items) →
  saveHistory term ls =
  Return (<[HISTORY_KEY :=
            stringify (VArr (take MAX_HISTORY
                               (VStr term :: List.filter (differs term) items)))]> ls).
Proof.
  intros Ht Hl. unfold saveHistory. apply truthy_true in Ht as ->.
  cbn [negb]. rewrite Hl. by rewrite truncate_take.
Qed.

Lemma saveHistory_strings (term : jsstring) (ls : gmap jsstring jsstring)
    (h : list jsstring) :
  trim term ≠ [] → loadHistory ls = Return (strings h) →
  saveHistory term ls =
  Return (<[HISTORY_KEY := stringify (strings (remember term h))]> ls).
Proof.
  intros Ht Hl. rewrite (saveHistory_array _ _ _ Ht Hl).
  rewrite filter_differs. unfold strings, remember.
  by rewrite fmap_take.
Qed.

Lemma filter_id {A} (P : A → Prop) `{∀ x, Decision (P x)} (l : list A) :
  Forall P l → filter P l = l.
Proof.
  induction 1 as [|x l Hx _ IH]; [done|]. by rewrite filter_cons_True, IH.
Qed.

Lemma remember_cons (term : jsstring) (h : list jsstring) :
  remember term h = term :: take 9 (filter (λ item, item ≠ term) h).
Proof. done. Qed.

Lemma remember_not_in_rest (term : jsstring) (h : list jsstring) :
  term ∉ take 9 (filter (λ item, item ≠ term) h).
Proof.
  intros (i & Hi & _)%elem_of_take. apply list_elem_of_lookup_2 in Hi.
  apply list_elem_of_filter in Hi as [Hne _]. done.
Qed.

Lemma remember_idem (term : jsstring) (h : list jsstring) :
  remember term (remember term h) = remember term h.
Proof.
  rewrite !remember_cons. f_equal.
  rewrite filter_cons_False by (intros Hne; by apply Hne).
  rewrite filter_id.
  - rewrite take_take. done.
  - apply Forall_forall. intros x Hx ->. by apply remember_not_in_rest in Hx.
Qed.

Lemma remember_length (term : jsstring) (h : list jsstring) :
  length (remember term h) ≤ MAX_HISTORY.
Proof. unfold remember. rewrite length_take. lia. Qed.

Lemma remember_NoDup (term : jsstring) (h : list jsstring) :
  NoDup h → NoDup (remember term h).
Proof.
  intros Hh. rewrite remember_cons. apply NoDup_cons. split.
  - apply remember_not_in_rest.
  - eapply sublist_NoDup; [|apply sublist_take]. by apply NoDup_filter.
Qed.

(** Cutting a duplicate-free list before dropping [term] loses nothing
    among the first [n] that remain. *)
Lemma take_filter_take (term : jsstring) (n : nat) (d : list jsstring) :
  NoDup d →
  take n (filter (λ item, item ≠ term) (take (S n) d))
  = take n (filter (λ item, item ≠ term) d).
Proof.
  intros Hd. revert n. induction Hd as [|x d Hx Hd IH]; intros n; [done|].
  cbn [take]. rewrite !filter_cons. destruct (decide (x ≠ term)) as [Hne|Heq].
  - destruct n as [|n]; [done|]. cbn [take]. by rewrite IH.
  - apply dec_stable in Heq as ->.
    rewrite !filter_id.
    + by rewrite take_take, Nat.min_id.
    + apply Forall_forall. by intros y Hy ->.
    + apply Forall_forall. intros y Hy ->. apply Hx.
      eapply elem_of_sublist; [exact Hy | apply sublist_take].
Qed.

Lemma push_NoDup (h : list jsstring) (term : jsstring) :
  NoDup h → NoDup (push h term).
Proof.
  intros Hh. unfold push. destruct (truthy (trim term)); [|done].
  apply NoDup_cons. split.
  - by intros [Hne _]%list_elem_of_filter.
  - by apply NoDup_filter.
Qed.

Lemma remember_take (term : jsstring) (d : list jsstring) :
  NoDup d →
  remember term (take MAX_HISTORY d)
  = take MAX_HISTORY (term :: filter (λ item, item ≠ term) d).
Proof.
  intros Hd. rewrite remember_cons. cbn [MAX_HISTORY take]. f_equal.
  by apply take_filter_take.
Qed.

Lemma save_all_from (saves d : list jsstring) (ls : gmap jsstring jsstring) :
  NoDup d → loadHistory ls = Return (strings (take MAX_HISTORY d)) →
  ∃ ls', save_all saves ls = Return ls' ∧
         loadHistory ls' = Return (strings (take MAX_HISTORY (fold_left push saves d))).
Proof.
  revert d ls. induction saves as [|term saves IH]; intros d ls Hd Hl; [by eauto|].
  cbn [save_all fold_left]. unfold push at 2.
  destruct (truthy (trim term)) eqn:Ht.
  - apply truthy_true in Ht.
    rewrite (saveHistory_strings _ _ _ Ht Hl). apply IH.
    + apply NoDup_cons. split; [by intros [Hne _]%list_elem_of_filter|by apply NoDup_filter].
    + rewrite loadHistory_stored. by rewrite remember_take.
  - apply truthy_false in Ht. rewrite saveHistory_blank by done. by apply IH.
Qed.

Lemma recent_snoc (saves : list jsstring) (term : jsstring) :
  recent (saves ++ [term]) = push (recent saves) term.
Proof. unfold recent. by rewrite fold_left_app. Qed.

Lemma recent_NoDup (saves : list jsstring) : NoDup (recent saves).
Proof.
  induction saves as [|term saves IH] using rev_ind; [constructor|].
  rewrite recent_snoc. by apply push_NoDup.
Qed.

Lemma recent_elem_of (saves : list jsstring) (term : jsstring) :
  term ∈ recent saves ↔ term ∈ saves ∧ trim term ≠ [].
Proof.
  induction saves as [|t saves IH] using rev_ind.
  - split; [by intros ?%elem_of_nil | by intros [?%elem_of_nil _]].
  - rewrite recent_snoc, elem_of_app, list_elem_of_singleton. unfold push.
    destruct (truthy (trim t)) eqn:Ht.
    + apply truthy_true in Ht.
      rewrite elem_of_cons, list_elem_of_filter, IH.
      destruct (decide (term = t)) as [->|Hne]; naive_solver.
    + apply truthy_false in Ht. rewrite IH. naive_solver.
Qed.

(** Order reflects recency: when [a] comes before [b], [b] was last saved
    before some save of [a]. *)
Lemma recent_order (saves : list jsstring) (a b : jsstring) :
  [a; b] `sublist_of` recent saves →
  ∃ before after, saves = before ++ a :: after ∧ b ∈ before ∧ b ∉ after.
Proof.
  induction saves as [|t saves IH] using rev_ind.
  - intros Hs%sublist_nil_r. discriminate.
  - rewrite recent_snoc. unfold push. destruct (truthy (trim t)) eqn:Ht.
    + intros Hs. apply sublist_cons_r in Hs as [Hs|(l' & [= <- <-] & Hs)].
      * assert ([a; b] `sublist_of` recent saves) as Hs'.
        { etrans; [done|]. apply sublist_filter. }
        assert (b ≠ t) as Hb.
        { assert (b ∈ filter (λ item, item ≠ t) (recent saves)) as Hin.
          { eapply elem_of_sublist; [|done]. set_solver. }
          by apply list_elem_of_filter in Hin as [? _]. }
        destruct (IH Hs') as (before & after & -> & Hin & Hnot).
        exists before, (after ++ [t]). rewrite <- app_assoc. split; [done|].
        split; [done|]. rewrite elem_of_app, list_elem_of_singleton. naive_solver.
      * exists saves, []. split; [done|].
        apply sublist_cons_l in Hs as (k1 & k2 & Hk & _).
        assert (b ∈ filter (λ item, item ≠ a) (recent saves)) as Hin.
        { rewrite Hk. set_solver. }
        apply list_elem_of_filter in Hin as [_ Hin%recent_elem_of].
        split; [tauto | apply not_elem_of_nil].
    + intros Hs. destruct (IH Hs) as (before & after & -> & Hin & Hnot).
      exists before, (after ++ [t]). rewrite <- app_assoc. split; [done|].
      split; [done|]. rewrite elem_of_app, list_elem_of_singleton.
      intros [?| ->]; [done|].
      assert (t ∈ recent (before ++ a :: after)) as Hin'.
      { eapply elem_of_sublist; [|done]. set_solver. }
      apply recent_elem_of in Hin' as [_ Hne]. by apply truthy_false in Ht.
Qed.

Lemma recent_distinct (saves : list jsstring) :
  NoDup saves → Forall (λ term, trim term ≠ []) saves →
  recent saves = reverse saves.
Proof.
  induction saves as [|t saves IH] using rev_ind; intros Hd Hb; [done|].
  apply NoDup_app in Hd as (Hd & Hnot & _).
  apply Forall_app in Hb as [Hb Ht]. rewrite Forall_singleton in Ht.
  rewrite recent_snoc, reverse_snoc. unfold push.
  apply truthy_true in Ht as ->. f_equal. rewrite IH by done.
  apply filter_id, Forall_forall. intros x Hx Heq. subst.
  rewrite elem_of_reverse in Hx.
  eapply Hnot; [exact Hx | apply list_elem_of_singleton; done].
Qed.

Lemma save_all_recent (saves : list jsstring) (ls : gmap jsstring jsstring) :
  loadHistory ls = Return (strings []) →
  ∃ ls', save_all saves ls = Return ls' ∧
         loadHistory ls' = Return (strings (take MAX_HISTORY (recent saves))).
Proof. intros Hl. apply (save_all_from saves []); [constructor | done]. Qed.

End HistoryFacts.

(** ** The filter pass on cards and categories *)
Section PageFacts.
Context {H : Host}.

Lemma hidden_true (cl : gset string) : hidden cl = true ↔ "hidden" ∈ cl.
Proof. apply bool_decide_eq_true. Qed.

Lemma hidden_false (cl : gset string) : hidden cl = false ↔ visible cl.
Proof. apply bool_decide_eq_false. Qed.

Lemma classList_add_other (name other : string) (cl : gset string) :
  other ≠ name → other ∈ classList_add name cl ↔ other ∈ cl.
Proof. unfold classList_add. set_solver. Qed.

Lemma classList_remove_other (name other : string) (cl : gset string) :
  other ≠ name → other ∈ classList_remove name cl ↔ other ∈ cl.
Proof. unfold classList_remove. set_solver. Qed.

Lemma classList_add_in (name : string) (cl : gset string) :
  name ∈ classList_add name cl.
Proof. unfold classList_add. set_solver. Qed.

Lemma classList_remove_out (name : string) (cl : gset string) :
  name ∉ classList_remove name cl.
Proof. unfold classList_remove. set_solver. Qed.

(** One card after the loop body: same parts, same classes but [hidden],
    and [hidden] exactly when neither text includes the term. *)
Lemma filter_card_Return (q : jsstring) (e e' : card) :
  filter_card q e = Return e' →
  parts e' = parts e ∧
  (∀ name, name ≠ "hidden" → name ∈ classList e' ↔ name ∈ classList e) ∧
  (visible (classList e') ↔ is_substring q (title e) ∨ is_substring q (fullText e)).
Proof.
  unfold filter_card, title, fullText.
  destruct (querySelector_h4 e) as [[i h4]|]; [|done].
  rewrite <- !includes_spec, <- orb_true_iff.
  destruct (_ || _); intros [= <-]; cbn.
  - split; [done|]. split; [intros; by apply classList_remove_other|].
    split; [done|]. intros _. apply classList_remove_out.
  - split; [done|]. split; [intros; by apply classList_add_other|].
    split; [|done]. intros Hv. destruct Hv. apply classList_add_in.
Qed.

Lemma filter_card_has_h4 (q : jsstring) (e : card) :
  has_h4 e → ∃ e', filter_card q e = Return e'.
Proof.
  intros [[i h4] Hh]. unfold filter_card. rewrite Hh.
  destruct (_ || _); eauto.
Qed.

(** The frame of the card loop, whether it finishes or throws. *)
Lemma filter_cards_frame (q : jsstring) (cs : list card) :
  Forall2 (λ e e', parts e' = parts e ∧
             ∀ name, name ≠ "hidden" → name ∈ classList e' ↔ name ∈ classList e)
          cs (filter_cards q cs).1.
Proof.
  induction cs as [|e cs IH]; cbn [filter_cards]; [constructor|].
  destruct (filter_card q e) as [e'|err] eqn:He.
  - destruct (filter_cards q cs) as [cs' r]. cbn in *. constructor; [|done].
    apply filter_card_Return in He. tauto.
  - cbn. apply Forall2_same_length_lookup. split; [done|].
    intros i x y Hx Hy. by simplify_eq.
Qed.

(** Without an [h4] the pass fails fast: the cards before are updated,
    that card and the ones after it are left as they were. *)
Lemma filter_cards_throws (q : jsstring) (before after : list card) (e : card) :
  Forall has_h4 before → querySelector_h4 e = None →
  (filter_cards q (before ++ e :: after)).2 = Throw TypeError ∧
  drop (length before) (filter_cards q (before ++ e :: after)).1 = e :: after.
Proof.
  intros Hb He. induction Hb as [|c cs Hc _ IH]; cbn [app filter_cards].
  - unfold filter_card. by rewrite He.
  - destruct (filter_card_has_h4 q c Hc) as [c' ->].
    by destruct (filter_cards q (cs ++ e :: after)) as [cs' r].
Qed.

Lemma filter_cards_complete (q : jsstring) (cs : list card) :
  Forall has_h4 cs →
  (filter_cards q cs).2 = Return () ∧
  Forall2 (λ e e', filter_card q e = Return e') cs (filter_cards q cs).1.
Proof.
  induction 1 as [|e cs He _ IH]; cbn [filter_cards]; [by split; [|constructor]|].
  destruct (filter_card_has_h4 q e He) as [e' He']. rewrite He'.
  destruct (filter_cards q cs) as [cs' r]. cbn in *. destruct IH as [-> IH].
  split; [done|]. by constructor.
Qed.

Lemma title_parts (e e' : card) : parts e' = parts e → title e' = title e.
Proof. unfold title, querySelector_h4. by intros ->. Qed.

Lemma fullText_parts (e e' : card) : parts e' = parts e → fullText e' = fullText e.
Proof. unfold fullText, textContent. by intros ->. Qed.

Lemma filter_category_spec (cards : list card) (c : category) :
  cat_cards (filter_category cards c) = cat_cards c ∧
  (∀ name, name ≠ "hidden" →
     name ∈ cat_classList (filter_category cards c) ↔ name ∈ cat_classList c) ∧
  ("hidden" ∈ cat_classList (filter_category cards c) ↔
   ∀ i e, i ∈ cat_cards c → cards !! i = Some e → "hidden" ∈ classList e).
Proof.
  unfold filter_category. case_bool_decide as Hlen; cbn.
  - split; [done|]. split; [intros; by apply classList_add_other|].
    split; [|intros; apply classList_add_in].
    intros _ i e Hi He. apply length_zero_iff_nil in Hlen.
    destruct (decide ("hidden" ∈ classList e)) as [|Hv]; [done|]. exfalso.
    assert (i ∈ visibleCards cards c) as Hin; [|rewrite Hlen in Hin; by apply elem_of_nil in Hin].
    apply list_elem_of_In, filter_In. split; [by apply list_elem_of_In|].
    rewrite He. apply negb_true_iff. by apply hidden_false.
  - split; [done|]. split; [intros; by apply classList_remove_other|].
    split; [intros Hh; by apply classList_remove_out in Hh|].
    intros Hall. destruct Hlen.
    destruct (visibleCards cards c) as [|i l] eqn:Hv; [done|exfalso].
    assert (i ∈ visibleCards cards c) as Hin by (rewrite Hv; left).
    apply list_elem_of_In, filter_In in Hin as [Hi%list_elem_of_In Hvis].
    destruct (cards !! i) as [e|] eqn:He; [|done].
    apply negb_true_iff, hidden_false in Hvis. apply Hvis. by eapply Hall.
Qed.

End PageFacts.

(** ** The filter pass on the page state *)
Section AppFacts.
Context {H : Host}.

Lemma history_listener_document (st : state) :
  formulaCards (history_listener st) = formulaCards st ∧
  categories (history_listener st) = categories st ∧
  searchBox_value (history_listener st) = searchBox_value st ∧
  localStorage (history_listener st) = localStorage st ∧
  typeset_listener (history_listener st) = typeset_listener st.
Proof. unfold history_listener, clearTimeout. by destruct (searchTimeout st). Qed.

Lemma mathjax_listener_document (st : state) :
  formulaCards (mathjax_listener st) = formulaCards st ∧
  categories (mathjax_listener st) = categories st.
Proof. done. Qed.

Lemma filter_listener_cards (st : state) :
  formulaCards (filter_listener st)
  = (filter_cards (toLowerCase (searchBox_value st)) (formulaCards st)).1.
Proof.
  unfold filter_listener. destruct (filter_cards _ _) as [cs [[]|e]]; done.
Qed.

Lemma filter_listener_categories (st : state) :
  categories (filter_listener st)
  = match (filter_cards (toLowerCase (searchBox_value st)) (formulaCards st)).2 with
    | Return _ => filter_category (formulaCards (filter_listener st)) <$> categories st
    | Throw _ => categories st
    end.
Proof.
  unfold filter_listener. destruct (filter_cards _ _) as [cs [[]|e]]; done.
Qed.

Lemma filter_listener_typeset (st : state) :
  typeset_listener (filter_listener st) = typeset_listener st.
Proof.
  unfold filter_listener. destruct (filter_cards _ _) as [cs [[]|e]]; done.
Qed.

Lemma dispatch_input_cards (st : state) :
  formulaCards (dispatch_input st)
  = (filter_cards (toLowerCase (searchBox_value st)) (formulaCards st)).1.
Proof.
  unfold dispatch_input.
  destruct (history_listener_document st) as (Hc & _ & Hv & _).
  rewrite <- Hc, <- Hv, <- filter_listener_cards.
  by destruct (typeset_listener _).
Qed.

Lemma dispatch_input_categories (st : state) :
  categories (dispatch_input st)
  = match (filter_cards (toLowerCase (searchBox_value st)) (formulaCards st)).2 with
    | Return _ => filter_category (formulaCards (dispatch_input st)) <$> categories st
    | Throw _ => categories st
    end.
Proof.
  rewrite dispatch_input_cards. unfold dispatch_input.
  destruct (history_listener_document st) as (Hc & Hk & Hv & _).
  rewrite <- Hc, <- Hv, <- Hk, <- filter_listener_cards.
  rewrite <- filter_listener_categories.
  by destruct (typeset_listener _).
Qed.

(** C1. For every query [q], after the input event every entry has the
    parts it had and is visible exactly when the lower-cased [q] occurs in
    its title or in its full text; with the empty query every entry is
    visible.  The entries are the cards of the host contract: each has
    an [h4]. *)
Theorem filter_entry_visible_iff (st : state) (q : jsstring) :
  Forall has_h4 (formulaCards st) →
  Forall2
    (λ e e',
       parts e' = parts e ∧
       (visible (classList e') ↔
        is_substring (toLowerCase q) (title e') ∨
        is_substring (toLowerCase q) (fullText e')) ∧
       (q = [] → visible (classList e')))
    (formulaCards st) (formulaCards (step st (Input q))).
Proof.
  intros Hh4. cbn [step]. rewrite dispatch_input_cards. cbn.
  destruct (filter_cards_complete (toLowerCase q) _ Hh4) as [_ Hall].
  eapply Forall2_impl; [exact Hall|]. intros e e' He. cbv beta in He.
  apply filter_card_Return in He as (Hp & _ & Hv).
  rewrite (title_parts _ _ Hp), (fullText_parts _ _ Hp).
  split; [done|]. split; [done|]. intros ->. apply Hv. left.
  rewrite toLowerCase_empty. by exists [], (title e).
Qed.

(** C6. After the input event a category is hidden exactly when every
    card it contains is hidden, the cards being those the same pass just
    updated. *)
Theorem filter_category_hidden_iff (st : state) (q : jsstring) :
  Forall has_h4 (formulaCards st) →
  Forall2
    (λ c c',
       cat_cards c' = cat_cards c ∧
       ("hidden" ∈ cat_classList c' ↔
        ∀ i e, i ∈ cat_cards c' →
               formulaCards (step st (Input q)) !! i = Some e →
               "hidden" ∈ classList e))
    (categories st) (categories (step st (Input q))).
Proof.
  intros Hh4. cbn [step]. rewrite dispatch_input_categories. cbn.
  destruct (filter_cards_complete (toLowerCase q) _ Hh4) as [-> _].
  apply Forall2_fmap_r, Forall_Forall2_diag, Forall_forall. intros c _.
  destruct (filter_category_spec (formulaCards (dispatch_input (set_value q st))) c)
    as (Hc & _ & Hh).
  split; [done|]. by rewrite Hc.
Qed.

(** C9. The filter listener changes class lists only, and there only
    [hidden]: the parts of every card (texts, display styles of the
    derivation and example contents, listeners) and the order of the cards
    stay, and so do the cards of every category, the stored history, the
    search box and the timers.  This holds also when the pass throws. *)
Theorem filter_listener_frame (st : state) :
  Forall2 (λ e e', parts e' = parts e ∧ same_but_hidden (classList e) (classList e'))
          (formulaCards st) (formulaCards (filter_listener st)) ∧
  Forall2 (λ c c', cat_cards c' = cat_cards c ∧
                   same_but_hidden (cat_classList c) (cat_classList c'))
          (categories st) (categories (filter_listener st)) ∧
  localStorage (filter_listener st) = localStorage st ∧
  searchBox_value (filter_listener st) = searchBox_value st ∧
  timers (filter_listener st) = timers st ∧
  searchTimeout (filter_listener st) = searchTimeout st.
Proof.
  split; [|split].
  - rewrite filter_listener_cards. apply filter_cards_frame.
  - rewrite filter_listener_categories. destruct (filter_cards _ _).2.
    + apply Forall2_fmap_r, Forall_Forall2_diag, Forall_forall. intros c _.
      destruct (filter_category_spec (formulaCards (filter_listener st)) c) as (Hc & Hn & _).
      done.
    + apply Forall_Forall2_diag, Forall_forall. intros c _. split; [done|]. by intros ? ?.
  - unfold filter_listener. destruct (filter_cards _ _) as [cs [[]|e]]; done.
Qed.

(** C7. With text in the search box, the Escape key leaves the page in
    the very state that emptying the box and dispatching an input event
    does; with an empty box it does nothing. *)
Theorem escape_clears_like_input (st : state) (ctrlKey metaKey : bool) :
  (searchBox_value st ≠ [] →
   step st (KeyDown ctrlKey metaKey "Escape") = step st (Input [])) ∧
  (searchBox_value st = [] →
   step st (KeyDown ctrlKey metaKey "Escape") = st).
Proof.
  cbn [step]. unfold keydown_listener.
  rewrite (bool_decide_eq_false_2 ("Escape" = "k")) by done.
  rewrite andb_false_r. rewrite bool_decide_eq_true_2 by done.
  split; intros Hv.
  - by destruct (searchBox_value st).
  - by rewrite Hv.
Qed.

End AppFacts.

(** ** Timers *)
Section TimerFacts.
Context {H : Host}.

Lemma filter_ext_elem {A} (P Q : A → Prop)
    `{!∀ x, Decision (P x), !∀ x, Decision (Q x)} (l : list A) :
  (∀ x, x ∈ l → P x ↔ Q x) → filter P l = filter Q l.
Proof.
  induction l as [|x l IH]; intros Hpq; [done|].
  rewrite !filter_cons, IH by (intros y Hy; apply Hpq; by right).
  pose proof (Hpq x ltac:(left)) as Hx.
  destruct (decide (P x)), (decide (Q x)); tauto.
Qed.

Lemma filter_none {A} (P : A → Prop) `{!∀ x, Decision (P x)} (l : list A) :
  Forall (λ x, ¬ P x) l → filter P l = [].
Proof. induction 1; [done|]. by rewrite filter_cons_False. Qed.

Lemma enqueue_perm (t : timer) (q : list timer) : enqueue t q ≡ₚ t :: q.
Proof.
  induction q as [|t' q IH]; cbn [enqueue]; [done|].
  destruct (due t' <=? due t); [|done]. rewrite IH. apply Permutation_swap.
Qed.

(** The timers after the history listener: the pending save is gone, a new
    one is due in a second. *)
Lemma history_listener_timers (st : state) :
  timers (history_listener st) ≡ₚ
    {| timer_id := next_timer st; due := now st + 1000; action := SaveSearch |}
    :: filter (λ t, searchTimeout st ≠ Some (timer_id t)) (timers st) ∧
  next_timer (history_listener st) = S (next_timer st) ∧
  searchTimeout (history_listener st) = Some (next_timer st) ∧
  now (history_listener st) = now st.
Proof.
  unfold history_listener, clearTimeout. destruct (searchTimeout st) as [i|]; cbn.
  - rewrite enqueue_perm. split; [|done]. constructor.
    erewrite list_filter_iff; [done|]. intros t. cbn. naive_solver.
  - rewrite enqueue_perm. split; [|done]. constructor.
    rewrite filter_id; [done|]. by apply Forall_forall.
Qed.

Lemma filter_listener_timers (st : state) :
  timers (filter_listener st) = timers st ∧
  next_timer (filter_listener st) = next_timer st ∧
  searchTimeout (filter_listener st) = searchTimeout st ∧
  now (filter_listener st) = now st.
Proof. unfold filter_listener. destruct (filter_cards _ _) as [cs [[]|e]]; done. Qed.

Lemma mathjax_listener_timers (st : state) :
  timers (mathjax_listener st) ≡ₚ
    {| timer_id := next_timer st; due := now st + 100; action := Typeset |}
    :: timers st ∧
  next_timer (mathjax_listener st) = S (next_timer st) ∧
  searchTimeout (mathjax_listener st) = searchTimeout st ∧
  now (mathjax_listener st) = now st.
Proof. unfold mathjax_listener. cbn. by rewrite enqueue_perm. Qed.


Lemma history_listener_ok (st : state) : timers_ok st → timers_ok (history_listener st).
Proof.
  intros [Hfresh Hhandle Hnd Hsave].
  destruct (history_listener_timers st) as (Ht & Hn & Hs & _).
  assert (∀ t, t ∈ timers (history_listener st) ↔
    t = {| timer_id := next_timer st; due := now st + 1000; action := SaveSearch |} ∨
    (t ∈ timers st ∧ searchTimeout st ≠ Some (timer_id t))) as Hin.
  { intros t. rewrite Ht, elem_of_cons, list_elem_of_filter. tauto. }
  split.
  - intros t [->|[Hold _]]%Hin; rewrite Hn; [cbn; lia|]. apply Hfresh in Hold. lia.
  - intros i. rewrite Hs, Hn. intros [= <-]. lia.
  - rewrite Ht. cbn [fmap list_fmap timer_id]. apply NoDup_cons. split.
    + intros (t & Hid & [_ Hold]%list_elem_of_filter)%list_elem_of_fmap.
      apply Hfresh in Hold. lia.
    + eapply sublist_NoDup; [exact Hnd|]. apply fmap_sublist, sublist_filter.
  - intros t [->|[Hold Hne]]%Hin; rewrite Hs; [done|].
    split.
    + intros Ha. by apply (Hsave t Hold) in Ha.
    + intros [= Hid]. apply Hfresh in Hold. lia.
Qed.

Lemma filter_listener_ok (st : state) : timers_ok st → timers_ok (filter_listener st).
Proof.
  intros [Hfresh Hhandle Hnd Hsave].
  destruct (filter_listener_timers st) as (Ht & Hn & Hs & _).
  split; rewrite ?Ht, ?Hn, ?Hs; done.
Qed.

Lemma mathjax_listener_ok (st : state) : timers_ok st → timers_ok (mathjax_listener st).
Proof.
  intros [Hfresh Hhandle Hnd Hsave].
  destruct (mathjax_listener_timers st) as (Ht & Hn & Hs & _).
  assert (∀ t, t ∈ timers (mathjax_listener st) ↔
    t = {| timer_id := next_timer st; due := now st + 100; action := Typeset |} ∨
    t ∈ timers st) as Hin.
  { intros t. by rewrite Ht, elem_of_cons. }
  split.
  - intros t [->|Hold]%Hin; rewrite Hn; [cbn; lia|]. apply Hfresh in Hold. lia.
  - intros i. rewrite Hs, Hn. intros Hi%Hhandle. lia.
  - rewrite Ht. cbn [fmap list_fmap timer_id]. apply NoDup_cons. split; [|done].
    intros (t & Hid & Hold)%list_elem_of_fmap. apply Hfresh in Hold. lia.
  - intros t [->|Hold]%Hin; rewrite Hs; [|by apply Hsave].
    cbn. split; [done|]. intros Hi%Hhandle. lia.
Qed.

Lemma dispatch_input_ok (st : state) : timers_ok st → timers_ok (dispatch_input st).
Proof.
  intros Hok. unfold dispatch_input.
  destruct (typeset_listener _); [apply mathjax_listener_ok|];
    by apply filter_listener_ok, history_listener_ok.
Qed.

(** Whatever pending typeset timers there were are still pending after the
    history and filter listeners ran. *)
Lemma pending_Typeset_history (st : state) :
  timers_ok st →
  pending Typeset (filter_listener (history_listener st)) ≡ₚ pending Typeset st.
Proof.
  intros [Hfresh Hhandle Hnd Hsave]. unfold pending.
  destruct (filter_listener_timers (history_listener st)) as (-> & _).
  destruct (history_listener_timers st) as (-> & _).
  rewrite filter_cons_False by done. rewrite list_filter_filter.
  rewrite (filter_ext_elem _ (λ t, action t = Typeset)); [done|]. intros t Ht. cbn.
  split; [tauto|]. intros Ha. split; [done|]. intros Heq%(Hsave t Ht). congruence.
Qed.

Lemma pending_SaveSearch_history (st : state) :
  timers_ok st →
  pending SaveSearch (filter_listener (history_listener st)) =
  [{| timer_id := next_timer st; due := now st + 1000; action := SaveSearch |}].
Proof.
  intros [Hfresh Hhandle Hnd Hsave]. unfold pending.
  destruct (filter_listener_timers (history_listener st)) as (-> & _).
  destruct (history_listener_timers st) as (Hp & _).
  apply Permutation_singleton_r. rewrite Hp.
  rewrite filter_cons_True by done. rewrite list_filter_filter.
  constructor. rewrite filter_none; [done|].
  apply Forall_forall. intros t Ht [Ha Hne]. by apply (Hsave t Ht) in Ha.
Qed.


Lemma run_callback_clock (cb : callback) (st : state) :
  timers (run_callback cb st) = timers st ∧
  next_timer (run_callback cb st) = next_timer st ∧
  searchTimeout (run_callback cb st) = searchTimeout st ∧
  searchBox_value (run_callback cb st) = searchBox_value st.
Proof.
  destruct cb; cbn; [done|].
  destruct (truthy _); [|done]. by destruct (saveHistory _ _).
Qed.

Lemma run_callbacks_clock (ready : list timer) (st : state) :
  let st' := fold_left (λ st t, run_callback (action t) st) ready st in
  timers st' = timers st ∧ next_timer st' = next_timer st ∧
  searchTimeout st' = searchTimeout st ∧ searchBox_value st' = searchBox_value st.
Proof.
  revert st. induction ready as [|t ready IH]; intros st; [done|].
  cbn [fold_left]. destruct (IH (run_callback (action t) st)) as (-> & -> & -> & ->).
  apply run_callback_clock.
Qed.

Lemma elapse_timers (ms : nat) (st : state) :
  timers (elapse ms st) = filter (λ t, ¬ due t ≤ now st + ms) (timers st) ∧
  next_timer (elapse ms st) = next_timer st ∧
  searchTimeout (elapse ms st) = searchTimeout st.
Proof.
  unfold elapse. cbv zeta.
  match goal with |- context [fold_left ?f ?l ?s] =>
    destruct (run_callbacks_clock l s) as (-> & -> & -> & _) end.
  done.
Qed.

Lemma elapse_ok (ms : nat) (st : state) : timers_ok st → timers_ok (elapse ms st).
Proof.
  intros [Hfresh Hhandle Hnd Hsave].
  destruct (elapse_timers ms st) as (Ht & Hn & Hs).
  split; rewrite ?Ht, ?Hn, ?Hs; [| done | |].
  - intros t [_ Hin]%list_elem_of_filter. by apply Hfresh.
  - eapply sublist_NoDup; [exact Hnd|]. apply fmap_sublist, sublist_filter.
  - intros t [_ Hin]%list_elem_of_filter. by apply Hsave.
Qed.

Lemma step_ok (st : state) (ev : event) : timers_ok st → timers_ok (step st ev).
Proof.
  intros Hok. destruct ev as [text|ctrlKey metaKey key|i|ms]; cbn [step].
  - apply dispatch_input_ok. by destruct Hok.
  - unfold keydown_listener.
    set (st0 := if _ && _ then focus st else st).
    assert (timers_ok st0) as Hok0.
    { unfold st0. destruct (_ && _); [|done]. by destruct Hok. }
    clearbody st0.
    destruct (bool_decide _); [|done]. destruct (truthy _); [|done].
    apply dispatch_input_ok. by destruct Hok0.
  - by destruct Hok.
  - by apply elapse_ok.
Qed.

Lemma run_ok (st : state) (evs : list event) : timers_ok st → timers_ok (run st evs).
Proof.
  revert st. induction evs as [|ev evs IH]; intros st Hok; [done|].
  apply IH. by apply step_ok.
Qed.

Lemma start_ok (mathJax : bool) (cards : list card) (cats : list category)
    (storage : gmap jsstring jsstring) :
  timers_ok (start mathJax cards cats storage).
Proof.
  unfold start, DOMContentLoaded. destruct (setup_derivations _) as [cs [[]|e]];
    (split; cbn; [by intros t ?%elem_of_nil | done | constructor | by intros t ?%elem_of_nil]).
Qed.

(** Each input event adds a typeset timer and cancels none. *)
Lemma typeset_timers_pile_up (st : state) (text : jsstring) :
  timers_ok st → typeset_listener st = true →
  pending Typeset (step st (Input text)) ≡ₚ
    {| timer_id := S (next_timer st); due := now st + 100; action := Typeset |}
    :: pending Typeset st.
Proof.
  intros Hok Hmj. cbn [step]. unfold dispatch_input.
  set (st0 := set_value text st).
  assert (timers_ok st0) as Hok0 by (by destruct Hok).
  rewrite filter_listener_typeset.
  destruct (history_listener_document st0) as (_ & _ & _ & _ & ->).
  cbn [st0 set_value typeset_listener]. rewrite Hmj.
  unfold pending at 1.
  destruct (mathjax_listener_timers (filter_listener (history_listener st0))) as (-> & _).
  rewrite filter_cons_True by done.
  destruct (filter_listener_timers (history_listener st0)) as (_ & -> & _ & ->).
  destruct (history_listener_timers st0) as (_ & -> & _ & ->).
  constructor. by apply (pending_Typeset_history st0).
Qed.

(** Each input event leaves exactly one save timer, the one it set. *)
Lemma save_timer_superseded (st : state) (text : jsstring) :
  timers_ok st →
  pending SaveSearch (step st (Input text)) =
  [{| timer_id := next_timer st; due := now st + 1000; action := SaveSearch |}].
Proof.
  intros Hok. cbn [step]. unfold dispatch_input.
  set (st0 := set_value text st).
  assert (timers_ok st0) as Hok0 by (by destruct Hok).
  trans (pending SaveSearch (filter_listener (history_listener st0)));
    [|exact (pending_SaveSearch_history st0 Hok0)].
  destruct (typeset_listener _); [|done].
  unfold pending at 1.
  destruct (mathjax_listener_timers (filter_listener (history_listener st0))) as (Hp & _).
  pose proof (pending_SaveSearch_history st0 Hok0) as Hone. rewrite Hone.
  apply Permutation_singleton_r. rewrite Hp, filter_cons_False by done.
  unfold pending in Hone. by rewrite Hone.
Qed.

Lemma pending_SaveSearch_le_1 (st : state) :
  timers_ok st → length (pending SaveSearch st) ≤ 1.
Proof.
  intros [Hfresh Hhandle Hnd Hsave]. unfold pending.
  destruct (filter _ _) as [|t1 [|t2 l]] eqn:Hf; cbn; [lia|lia|exfalso].
  assert (filter (λ t, action t = SaveSearch) (timers st) `sublist_of` timers st) as Hsub
    by apply sublist_filter.
  rewrite Hf in Hsub.
  assert (t1 ∈ filter (λ t, action t = SaveSearch) (timers st)) as H1 by (rewrite Hf; set_solver).
  assert (t2 ∈ filter (λ t, action t = SaveSearch) (timers st)) as H2 by (rewrite Hf; set_solver).
  apply list_elem_of_filter in H1 as [Ha1 Hi1]. apply list_elem_of_filter in H2 as [Ha2 Hi2].
  apply (Hsave t1 Hi1) in Ha1. apply (Hsave t2 Hi2) in Ha2.
  assert (timer_id t1 = timer_id t2) as Hid by congruence.
  apply (fmap_sublist timer_id) in Hsub. eapply sublist_NoDup in Hsub; [|exact Hnd].
  cbn in Hsub. rewrite Hid in Hsub. apply NoDup_cons in Hsub as [Hnot _].
  apply Hnot. left.
Qed.

End TimerFacts.

(** ** Time passing, and clicks on cards without derivation *)
Section ToggleFacts.
Context {H : Host}.

Lemma elapse_typesets (ms : nat) (st : state) :
  typesets (elapse ms st) =
  typesets st +
  length (filter (λ t, action t = Typeset)
            (filter (λ t, due t ≤ now st + ms) (timers st))).
Proof.
  unfold elapse. cbv zeta.
  set (st0 := set_clock _ _ _ st). change (typesets st) with (typesets st0).
  generalize (filter (λ t, due t ≤ now st + ms) (timers st)). clearbody st0.
  intros ready. revert st0. induction ready as [|t ready IH]; intros st0; cbn [fold_left].
  - cbn. lia.
  - rewrite IH. destruct t as [i d []].
    + rewrite filter_cons_True by done. cbn. lia.
    + rewrite filter_cons_False by done. cbn.
      destruct (truthy _); [|done]. by destruct (saveHistory _ _).
Qed.

Lemma run_callbacks_typeset_storage (ready : list timer) (st : state) :
  Forall (λ t, action t = Typeset) ready →
  localStorage (fold_left (λ st t, run_callback (action t) st) ready st)
  = localStorage st.
Proof.
  intros Hall. revert st. induction Hall as [|t ready Ht _ IH]; intros st; [done|].
  cbn [fold_left]. rewrite IH, Ht. done.
Qed.

Lemma run_callbacks_one_write (ready : list timer) (st : state) :
  length (filter (λ t, action t = SaveSearch) ready) ≤ 1 →
  let st' := fold_left (λ st t, run_callback (action t) st) ready st in
  localStorage st' = localStorage st ∨
  saveHistory (trim (searchBox_value st)) (localStorage st) = Return (localStorage st').
Proof.
  revert st. induction ready as [|t ready IH]; intros st Hlen; [by left|].
  cbn [fold_left]. destruct t as [i d []].
  - rewrite filter_cons_False in Hlen by done.
    apply (IH (count_typeset st)) in Hlen. done.
  - rewrite filter_cons_True in Hlen by done. cbn in Hlen. cbn [action run_callback].
    assert (Forall (λ t, action t = Typeset) ready) as Hty.
    { apply Forall_forall. intros t Ht. destruct (action t) eqn:Ha; [done|exfalso].
      assert (t ∈ filter (λ t, action t = SaveSearch) ready) as Hin
        by (by apply list_elem_of_filter).
      destruct (filter _ ready); [by apply elem_of_nil in Hin | cbn in Hlen; lia]. }
    rewrite run_callbacks_typeset_storage by done.
    destruct (truthy _); [|by left].
    destruct (saveHistory _ _) as [ls|e]; [by right | by left].
Qed.

(** While time passes the history is written at most once. *)
Lemma elapse_one_write (ms : nat) (st : state) :
  timers_ok st →
  localStorage (elapse ms st) = localStorage st ∨
  saveHistory (trim (searchBox_value st)) (localStorage st)
  = Return (localStorage (elapse ms st)).
Proof.
  intros Hok. unfold elapse. cbv zeta.
  match goal with |- context [fold_left ?f ?l ?s] =>
    apply (run_callbacks_one_write l s) end.
  etrans; [|exact (pending_SaveSearch_le_1 st Hok)].
  unfold pending. apply sublist_length.
  rewrite list_filter_filter.
  rewrite <- (list_filter_filter_l _ (λ t, action t = SaveSearch)) by tauto.
  apply sublist_filter.
Qed.


Lemma set_display_quiet (d : string) (p : part) : quiet p → quiet (set_display d p).
Proof. by destruct p. Qed.

Lemma setup_example_quiet (i : nat) (ps : list part) :
  Forall quiet ps → Forall quiet (setup_example i ps).
Proof.
  intros Hq. unfold setup_example.
  assert (Forall quiet (alter (set_display "block") i ps)) as Hq'.
  { apply Forall_alter; [done|]. intros p _. apply set_display_quiet. }
  destruct (first_index _ _) as [title|]; [|done].
  apply Forall_alter; [done|]. intros [h| | |] _; try done.
  cbn. by destruct (has_toggle h).
Qed.

Lemma setup_examples_quiet (e : card) :
  no_listeners e → no_listeners (setup_examples e) ∧
  classList (setup_examples e) = classList e.
Proof.
  intros Hq. split; [|done]. unfold no_listeners, setup_examples in *. cbn.
  revert Hq.
  generalize (seq 0 (length (parts e))) as idxs. generalize (parts e) as ps.
  intros ps idxs. revert ps.
  induction idxs as [|i idxs IH]; intros ps Hq; [done|].
  cbn [fold_left]. apply IH. destruct (ps !! i) as [[]|]; try done.
  by apply setup_example_quiet.
Qed.

Lemma first_index_lookup (test : part → bool) (ps : list part) (i : nat) :
  first_index test ps = Some i → ∃ p, ps !! i = Some p ∧ test p = true.
Proof.
  revert i. induction ps as [|p ps IH]; intros i; [done|]. cbn.
  destruct (test p) eqn:Hp; [intros [= <-]; eauto|].
  destruct (first_index test ps) as [j|]; [|done]. intros [= <-].
  destruct (IH j eq_refl) as (q & Hq & Ht). eauto.
Qed.

Lemma click_title_quiet (e : card) : no_listeners e → click_title e = e.
Proof.
  intros Hq. unfold click_title, querySelector_h4.
  destruct (first_index is_heading (parts e)) as [i|] eqn:Hi; [|done]. cbn.
  destruct (parts e !! i) as [[h| | |]|] eqn:Hp; try done.
  assert (h_click h = []) as ->.
  { unfold no_listeners in Hq. rewrite Forall_lookup in Hq. apply (Hq _ _ Hp). }
  by destruct e.
Qed.

(** The derivation loop leaves the cards of other classes as they are. *)
Lemma setup_derivations_other (cs : list card) (i : nat) (e : card) :
  cs !! i = Some e → "derivation" ∉ classList e →
  (setup_derivations cs).1 !! i = Some e.
Proof.
  revert i. induction cs as [|c cs IH]; intros i Hi Hd; [done|].
  cbn [setup_derivations]. case_bool_decide as Hc.
  - destruct (setup_derivation c) as [c' [[]|err]].
    + destruct (setup_derivations cs) as [cs' r]. destruct i as [|i]; cbn in *.
      * by simplify_eq.
      * by apply IH.
    + destruct i as [|i]; cbn in *; [by simplify_eq | done].
  - destruct (setup_derivations cs) as [cs' r]. destruct i as [|i]; cbn in *; [done|].
    by apply IH.
Qed.

Lemma set_cards_same (st : state) : set_cards (formulaCards st) st = st.
Proof. by destruct st. Qed.

(** A click on the heading of a card that is not of class [derivation]
    changes nothing, whatever the card contains. *)
Lemma click_other_card (mathJax : bool) (cards : list card)
    (cats : list category) (storage : gmap jsstring jsstring)
    (i : nat) (e : card) :
  cards !! i = Some e → "derivation" ∉ classList e → no_listeners e →
  step (start mathJax cards cats storage) (Click i) = start mathJax cards cats storage.
Proof.
  intros Hi Hd Hq. cbn [step]. unfold click_listener.
  set (st := start mathJax cards cats storage).
  enough (alter click_title i (formulaCards st) = formulaCards st) as ->
    by apply set_cards_same.
  subst st. apply list_eq. intros j. destruct (decide (j = i)) as [->|Hne].
  - rewrite list_lookup_alter.
    assert (∃ e', formulaCards (start mathJax cards cats storage) !! i = Some e' ∧
                  no_listeners e') as (e' & -> & He').
    { unfold start, DOMContentLoaded.
      pose proof (setup_derivations_other cards i e Hi Hd) as Hs.
      destruct (setup_derivations _) as [cs [[]|err]]; cbn in *.
      - rewrite list_lookup_fmap, Hs. cbn. eexists. split; [done|].
        by apply setup_examples_quiet.
      - eauto. }
    rewrite decide_True by done. cbn. by rewrite click_title_quiet.
  - by rewrite list_lookup_alter_ne.
Qed.

End ToggleFacts.

(** ** Collapsing and expanding a derivation *)
Section RoundTrip.
Context {H : Host}.

Lemma evolves_refl (p : part) : evolves p p.
Proof. by destruct p. Qed.

Lemma evolves_trans (p q r : part) : evolves p q → evolves q r → evolves p r.
Proof. destruct p, q, r; cbn; try done; congruence. Qed.

Lemma evolves_is_heading (p p' : part) : evolves p p' → is_heading p' = is_heading p.
Proof. by destruct p, p'. Qed.

Lemma first_index_evolves (ps ps' : list part) :
  Forall2 evolves ps ps' → first_index is_heading ps' = first_index is_heading ps.
Proof.
  induction 1 as [|p p' ps ps' Hp _ IH]; [done|]. cbn.
  by rewrite (evolves_is_heading _ _ Hp), IH.
Qed.

Lemma lookup_alter_Some {A} (f : A → A) (i j : nat) (l : list A) (x : A) :
  l !! j = Some x →
  alter f i l !! j = Some (if decide (i = j) then f x else x).
Proof.
  intros Hx. rewrite list_lookup_alter. case_decide; [subst|]; by rewrite Hx.
Qed.

Lemma alter_evolves (f : part → part) (i : nat) (ps : list part) :
  (∀ p, evolves p (f p)) → Forall2 evolves ps (alter f i ps).
Proof.
  intros Hf. apply Forall2_same_length_lookup. split; [by rewrite length_alter|].
  intros j p p' Hp. rewrite (lookup_alter_Some _ _ _ _ _ Hp). intros [= <-].
  case_decide; [apply Hf | apply evolves_refl].
Qed.

Lemma Forall2_evolves_trans (ps qs rs : list part) :
  Forall2 evolves ps qs → Forall2 evolves qs rs → Forall2 evolves ps rs.
Proof. apply Forall2_trans. intros p q r. apply evolves_trans. Qed.

Lemma setup_example_evolves (i : nat) (ps : list part) :
  (∃ r, ps !! i = Some (ExampleContent r)) →
  Forall2 evolves ps (setup_example i ps).
Proof.
  intros [r Hr]. unfold setup_example.
  assert (Forall2 evolves ps (alter (set_display "block") i ps)) as Hd.
  { apply Forall2_same_length_lookup. split; [by rewrite length_alter|].
    intros j p p' Hp. rewrite (lookup_alter_Some _ _ _ _ _ Hp). intros [= <-].
    case_decide; [|apply evolves_refl]. subst j. by simplify_eq. }
  destruct (first_index _ _) as [title|]; [|done].
  eapply Forall2_evolves_trans; [exact Hd|]. apply alter_evolves.
  intros [h| | |]; cbn; try done. by destruct (has_toggle h).
Qed.

Lemma setup_examples_evolves (e : card) :
  Forall2 evolves (parts e) (parts (setup_examples e)).
Proof.
  unfold setup_examples. cbn.
  generalize (seq 0 (length (parts e))) as idxs.
  assert (Forall2 evolves (parts e) (parts e)) as Hrefl
    by (apply Forall_Forall2_diag, Forall_forall; intros; apply evolves_refl).
  revert Hrefl. generalize (parts e) at 2 4 as ps. intros ps Hps idxs. revert ps Hps.
  induction idxs as [|i idxs IH]; intros ps Hps; [done|].
  cbn [fold_left]. apply IH. destruct (ps !! i) as [[]|] eqn:Hi; try done.
  eapply Forall2_evolves_trans; [exact Hps|]. apply setup_example_evolves. eauto.
Qed.

Lemma toggle_ready_evolves (e e' : card) (title content : nat) (d : string) :
  Forall2 evolves (parts e) (parts e') →
  toggle_ready e title content d → toggle_ready e' title content d.
Proof.
  intros Hev (Hfirst & (h & icon & Hh & Hclick) & (r & Hr & Hd)).
  split; [by rewrite (first_index_evolves _ _ Hev)|]. split.
  - destruct (Forall2_lookup_l _ _ _ _ _ Hev Hh) as (p' & Hp' & Hpp').
    destruct p' as [h'| | |]; try done. cbn in Hpp'. exists h', icon.
    split; [done | congruence].
  - destruct (Forall2_lookup_l _ _ _ _ _ Hev Hr) as (p' & Hp' & Hpp').
    destruct p' as [|r'| |]; try done. cbn in Hpp'. subst r'. eauto.
Qed.


Lemma first_index_alter (test : part → bool) (f : part → part) (i : nat)
    (ps : list part) :
  (∀ p, test (f p) = test p) →
  first_index test (alter f i ps) = first_index test ps.
Proof.
  intros Hf. revert i. induction ps as [|p ps IH]; intros i; [done|].
  destruct i as [|i]; cbn; [by rewrite Hf|]. by rewrite IH.
Qed.

Lemma is_heading_set_display (d : string) (p : part) :
  is_heading (set_display d p) = is_heading p.
Proof. by destruct p. Qed.

Lemma is_heading_on_heading (f : heading → heading) (p : part) :
  is_heading (on_heading f p) = is_heading p.
Proof. by destruct p. Qed.

(** Both branches of the click listener, on the parts of a card. *)
Lemma toggled_ready (e : card) (title content : nat) (d d' : string)
    (f : heading → heading) :
  (∀ h, h_click (f h) = h_click h) →
  toggle_ready e title content d →
  toggle_ready
    (with_parts (alter (on_heading f) title
                   (alter (set_display d') content (parts e))) e)
    title content d'.
Proof.
  intros Hf (Hfirst & (h & icon & Hh & Hclick) & (r & Hr & Hd)).
  unfold toggle_ready. cbn [parts with_parts].
  assert (title ≠ content) as Hne by (intros ->; congruence).
  split; [|split].
  - rewrite !first_index_alter; [done | apply is_heading_set_display
                                 | apply is_heading_on_heading].
  - exists (f h), icon. split; [|by rewrite Hf].
    rewrite (lookup_alter_Some _ _ _ _ (Heading h))
      by (by rewrite list_lookup_alter_ne).
    by rewrite decide_True.
  - exists {| r_display := d'; r_text := r_text r |}. split; [|done].
    rewrite list_lookup_alter_ne by done.
    rewrite (lookup_alter_Some _ _ _ _ _ Hr). by rewrite decide_True.
Qed.

(** What the derivation loop makes of a card as written. *)
Lemma setup_derivation_ready (e : card) (content : nat) :
  no_listeners e → has_h4 e →
  first_index is_derivation_content (parts e) = Some content →
  ∃ e' title, setup_derivation e = (e', Return ()) ∧
              toggle_ready e' title content "block".
Proof.
  intros Hq [[title h] Hh4] Hc. unfold setup_derivation. rewrite Hc.
  unfold querySelector_h4 in Hh4.
  destruct (first_index is_heading (parts e)) as [t|] eqn:Ht; [|done]. cbn in Hh4.
  destruct (parts e !! t) as [[h0| | |]|] eqn:Hpt; try done.
  injection Hh4 as -> ->.
  destruct (first_index_lookup _ _ _ Hc) as (p & Hp & Hisd).
  destruct p as [|r| |]; try done.
  assert (title ≠ content) as Hne by (intros ->; congruence).
  rewrite first_index_alter by apply is_heading_set_display. rewrite Ht.
  eexists _, title. split; [done|]. unfold toggle_ready. cbn [parts with_parts].
  split; [|split].
  - rewrite !first_index_alter; [done | apply is_heading_set_display
                                 | apply is_heading_on_heading].
  - eexists _, _. split.
    + rewrite (lookup_alter_Some _ _ _ _ (Heading h))
        by (by rewrite list_lookup_alter_ne).
      by rewrite decide_True.
    + cbn. unfold no_listeners in Hq. rewrite Forall_lookup in Hq.
      pose proof (Hq _ _ Hpt) as Hclick. cbn in Hclick. by rewrite Hclick.
  - exists {| r_display := "block"; r_text := r_text r |}. split; [|done].
    rewrite list_lookup_alter_ne by done.
    rewrite (lookup_alter_Some _ _ _ _ _ Hp). by rewrite decide_True.
Qed.

(** One click on the heading flips the display of the derivation content. *)
Lemma click_title_ready (e : card) (title content : nat) (d : string) :
  toggle_ready e title content d →
  toggle_ready (click_title e) title content
    (if bool_decide (d = "none") then "block" else "none").
Proof.
  intros Hready. pose proof Hready as (Hfirst & (h & icon & Hh & Hclick) & (r & Hr & Hd)).
  unfold click_title, querySelector_h4. rewrite Hfirst. cbn. rewrite Hh, Hclick.
  cbn [fold_left fst snd]. unfold toggle. rewrite Hr. cbn [mbind option_bind display].
  rewrite Hd.
  case_bool_decide; by apply (toggled_ready e title content d).
Qed.

Lemma setup_derivations_complete (cs : list card) :
  Forall has_h4 cs → Forall no_listeners cs →
  (setup_derivations cs).2 = Return () ∧
  Forall2 (λ e e', if bool_decide ("derivation" ∈ classList e)
                   then e' = (setup_derivation e).1 else e' = e)
          cs (setup_derivations cs).1.
Proof.
  intros Hh4. induction Hh4 as [|e cs He _ IH]; intros Hq; [by split; [|constructor]|].
  apply Forall_cons in Hq as [Hqe Hq]. destruct (IH Hq) as [Hr Hall].
  cbn [setup_derivations]. case_bool_decide as Hd.
  - assert (∃ e', setup_derivation e = (e', Return ())) as [e' He'].
    { destruct (first_index is_derivation_content (parts e)) as [c|] eqn:Hc.
      - destruct (setup_derivation_ready e c Hqe He Hc) as (e' & _ & -> & _). eauto.
      - unfold setup_derivation. rewrite Hc. eauto. }
    rewrite He'. destruct (setup_derivations cs) as [cs' r]. cbn in *.
    split; [done|]. constructor; [|done]. rewrite bool_decide_eq_true_2 by done.
    by rewrite He'.
  - destruct (setup_derivations cs) as [cs' r]. cbn in *.
    split; [done|]. constructor; [|done]. by rewrite bool_decide_eq_false_2.
Qed.

(** A derivation card with its heading and content, once the page
    started. *)
Lemma start_ready (mathJax : bool) (cards : list card) (cats : list category)
    (storage : gmap jsstring jsstring) (i content : nat) (e : card) :
  Forall has_h4 cards → Forall no_listeners cards →
  cards !! i = Some e → "derivation" ∈ classList e →
  first_index is_derivation_content (parts e) = Some content →
  ∃ e' title, formulaCards (start mathJax cards cats storage) !! i = Some e' ∧
              toggle_ready e' title content "block".
Proof.
  intros Hh4 Hq Hi Hd Hc. unfold start, DOMContentLoaded.
  destruct (setup_derivations_complete cards Hh4 Hq) as [Hr Hall].
  destruct (setup_derivations _) as [cs r]. cbn in *. subst r. cbn.
  destruct (Forall2_lookup_l _ _ _ _ _ Hall Hi) as (e1 & He1 & Hrel).
  rewrite bool_decide_eq_true_2 in Hrel by done.
  destruct (setup_derivation_ready e content) as (e1' & title & Hs & Hready).
  { rewrite Forall_lookup in Hq. by eapply Hq. }
  { rewrite Forall_lookup in Hh4. by eapply Hh4. }
  { done. }
  rewrite Hs in Hrel. cbn in Hrel. subst e1'.
  exists (setup_examples e1), title. rewrite list_lookup_fmap, He1. split; [done|].
  eapply toggle_ready_evolves; [apply setup_examples_evolves | done].
Qed.

Lemma click_lookup (st : state) (i : nat) (e : card) :
  formulaCards st !! i = Some e →
  formulaCards (step st (Click i)) !! i = Some (click_title e).
Proof.
  intros He. cbn. erewrite lookup_alter_Some by done. by rewrite decide_True.
Qed.

Lemma display_at_ready (st : state) (i title content : nat) (e : card) (d : string) :
  formulaCards st !! i = Some e → toggle_ready e title content d →
  display_at st i content = Some d.
Proof.
  intros He (_ & _ & (r & Hr & Hd)). unfold display_at. rewrite He. cbn.
  rewrite Hr. cbn. by rewrite Hd.
Qed.

(** The derivation content of a card starts expanded, one click on the
    heading collapses it, a second one expands it again. *)
Lemma derivation_round_trip (mathJax : bool) (cards : list card)
    (cats : list category) (storage : gmap jsstring jsstring)
    (i content : nat) (e : card) :
  Forall has_h4 cards → Forall no_listeners cards →
  cards !! i = Some e → "derivation" ∈ classList e →
  first_index is_derivation_content (parts e) = Some content →
  let st := start mathJax cards cats storage in
  display_at st i content = Some "block" ∧
  display_at (step st (Click i)) i content = Some "none" ∧
  display_at (step (step st (Click i)) (Click i)) i content = Some "block".
Proof.
  intros Hh4 Hq Hi Hd Hc st.
  destruct (start_ready mathJax cards cats storage i content e Hh4 Hq Hi Hd Hc)
    as (e0 & title & He0 & Hready0).
  pose proof (click_lookup _ _ _ He0) as He1.
  pose proof (click_title_ready _ _ _ _ Hready0) as Hready1.
  pose proof (click_lookup _ _ _ He1) as He2.
  pose proof (click_title_ready _ _ _ _ Hready1) as Hready2.
  split; [|split]; eapply display_at_ready; eauto.
Qed.

End RoundTrip.

(** ** The history store *)
Section Claims.
Context {H : Host}.

Lemma parse_empty : parse [] = Throw SyntaxError.
Proof. done. Qed.

Lemma parse_Throw (text : jsstring) (e : error) :
  parse text = Throw e → e = SyntaxError.
Proof.
  unfold parse. destruct (parse_value _ _) as [v r| |]; [|by intros [= <-]..].
  destruct (skip_ws r); [done | by intros [= <-]].
Qed.

(** C2. [saveHistory(term)] does nothing when the trimmed term is empty.
    Otherwise, on a stored list [h], it stores [remember term h]: [h]
    without [term], [term] put first, cut to ten; reading it back gives
    that list; saving the same term again changes nothing in it, and the
    term is in it once. *)
Theorem saveHistory_spec (term : jsstring) (ls : gmap jsstring jsstring) :
  (trim term = [] → saveHistory term ls = Return ls) ∧
  (trim term ≠ [] → ∀ h, loadHistory ls = Return (strings h) →
   ∃ ls',
     saveHistory term ls = Return ls' ∧
     ls' = <[HISTORY_KEY := stringify (strings (remember term h))]> ls ∧
     loadHistory ls' = Return (strings (remember term h)) ∧
     (∃ ls'', saveHistory term ls' = Return ls'' ∧
              loadHistory ls'' = Return (strings (remember term h))) ∧
     (∃ rest, remember term h = term :: rest ∧ term ∉ rest)).
Proof.
  split; [apply saveHistory_blank|]. intros Ht h Hl.
  eexists. split; [by apply saveHistory_strings|]. split; [done|].
  split; [apply loadHistory_stored|]. split.
  - eexists. split.
    + apply saveHistory_strings; [done | apply loadHistory_stored].
    + rewrite remember_idem. apply loadHistory_stored.
  - eexists. split; [apply remember_cons | apply remember_not_in_rest].
Qed.

(** C3. A save keeps the history at most ten long and free of
    duplicates, with the new term first and the older ones in their order.
    From an empty history, any saves leave the ten most recently searched
    terms, most recent first; eleven different terms leave the last ten,
    the first one gone. *)
Theorem history_invariant :
  (∀ term ls ls' h,
     loadHistory ls = Return (strings h) → length h ≤ MAX_HISTORY → NoDup h →
     saveHistory term ls = Return ls' →
     ∃ h', loadHistory ls' = Return (strings h') ∧
           length h' ≤ MAX_HISTORY ∧ NoDup h' ∧
           (trim term ≠ [] →
            ∃ older, h' = term :: older ∧ older `sublist_of` h)) ∧
  (∀ saves ls,
     loadHistory ls = Return (strings []) →
     ∃ ls', save_all saves ls = Return ls' ∧
            loadHistory ls' = Return (strings (take MAX_HISTORY (recent saves))) ∧
            NoDup (recent saves) ∧
            (∀ a b, [a; b] `sublist_of` recent saves →
               ∃ before after, saves = before ++ a :: after ∧
                               b ∈ before ∧ b ∉ after)) ∧
  (∀ saves ls,
     loadHistory ls = Return (strings []) →
     NoDup saves → Forall (λ term, trim term ≠ []) saves → length saves = 11 →
     ∃ ls', save_all saves ls = Return ls' ∧
            loadHistory ls' = Return (strings (reverse (drop 1 saves)))).
Proof.
  split; [|split].
  - intros term ls ls' h Hl Hlen Hnd Hs.
    destruct (decide (trim term = [])) as [Hb|Hb].
    + rewrite saveHistory_blank in Hs by done.
      assert (ls' = ls) as -> by congruence.
      exists h. by repeat split.
    + rewrite (saveHistory_strings _ _ _ Hb Hl) in Hs.
      assert (ls' = <[HISTORY_KEY := stringify (strings (remember term h))]> ls)
        as -> by congruence.
      exists (remember term h). split; [apply loadHistory_stored|].
      split; [apply remember_length|]. split; [by apply remember_NoDup|].
      intros _. eexists. split; [apply remember_cons|].
      etrans; [apply sublist_take | apply sublist_filter].
  - intros saves ls Hl. destruct (save_all_recent saves ls Hl) as (ls' & Hs & Hl').
    exists ls'. split; [done|]. split; [done|].
    split; [apply recent_NoDup | apply recent_order].
  - intros saves ls Hl Hnd Hb Hlen.
    destruct (save_all_recent saves ls Hl) as (ls' & Hs & Hl').
    exists ls'. split; [done|]. rewrite Hl', recent_distinct by done.
    rewrite take_reverse, Hlen. done.
Qed.

(** C8, amended. [loadHistory] returns the empty array when nothing is
    stored under the key and when the empty string is; on a stored text
    that is not empty and does not parse it throws the SyntaxError of
    [JSON.parse]. *)
Theorem loadHistory_absent_or_malformed (ls : gmap jsstring jsstring) :
  (ls !! HISTORY_KEY = None → loadHistory ls = Return (VArr [])) ∧
  (ls !! HISTORY_KEY = Some [] → loadHistory ls = Return (VArr [])) ∧
  (∀ s, ls !! HISTORY_KEY = Some s → s ≠ [] → parse s = Throw SyntaxError →
        loadHistory ls = Throw SyntaxError).
Proof.
  split; [apply loadHistory_absent|]. split.
  - intros Hs. unfold loadHistory. by rewrite Hs.
  - intros s Hs Hne Hp. by rewrite (loadHistory_present _ _ Hs Hne).
Qed.

(** C10. Whatever value the stored text parses to is what [loadHistory]
    returns: a number, an object or any other value as well as an array of
    strings. *)
Theorem loadHistory_no_validation (ls : gmap jsstring jsstring)
    (s : jsstring) (v : value) :
  ls !! HISTORY_KEY = Some s → parse s = Return v → loadHistory ls = Return v.
Proof.
  intros Hs Hp. rewrite (loadHistory_present _ _ Hs); [done|].
  intros ->. by rewrite parse_empty in Hp.
Qed.

End Claims.

(** * The properties on the demonstration page *)
Section Witnesses.
Import Demo.
Local Existing Instance ascii_host.

Lemma filter_entry_visible_iff_witness :
  Forall has_h4 (formulaCards page) ∧
  Forall2
    (λ e e',
       parts e' = parts e ∧
       (visible (classList e') ↔
        is_substring (toLowerCase (js "SIN")) (title e') ∨
        is_substring (toLowerCase (js "SIN")) (fullText e')) ∧
       (js "SIN" = [] → visible (classList e')))
    (formulaCards page) (formulaCards (step page (Input (js "SIN")))).
Proof.
  assert (Forall has_h4 (formulaCards page)) as Hh4.
  { apply (bool_decide_unpack _). vm_compute. exact I. }
  split; [exact Hh4 | exact (filter_entry_visible_iff page (js "SIN") Hh4)].
Defined.

Lemma filter_category_hidden_iff_witness :
  Forall has_h4 (formulaCards page) ∧
  Forall2
    (λ c c',
       cat_cards c' = cat_cards c ∧
       ("hidden" ∈ cat_classList c' ↔
        ∀ i e, i ∈ cat_cards c' →
               formulaCards (step page (Input (js "sin"))) !! i = Some e →
               "hidden" ∈ classList e))
    (categories page) (categories (step page (Input (js "sin")))).
Proof.
  assert (Forall has_h4 (formulaCards page)) as Hh4.
  { apply (bool_decide_unpack _). vm_compute. exact I. }
  split; [exact Hh4 | exact (filter_category_hidden_iff page (js "sin") Hh4)].
Defined.

Lemma escape_clears_like_input_witness :
  (searchBox_value searching ≠ [] ∧
   step searching (KeyDown false false "Escape") = step searching (Input [])) ∧
  (searchBox_value page = [] ∧ step page (KeyDown false false "Escape") = page).
Proof.
  split.
  - assert (searchBox_value searching ≠ []) as Hv by (vm_compute; discriminate).
    split; [exact Hv|].
    exact (proj1 (escape_clears_like_input searching false false) Hv).
  - assert (searchBox_value page = []) as Hv by reflexivity.
    split; [exact Hv|].
    exact (proj2 (escape_clears_like_input page false false) Hv).
Defined.

Lemma saveHistory_spec_witness :
  (trim (js " ") = [] ∧ saveHistory (js " ") stored = Return stored) ∧
  (trim (js "sin") ≠ [] ∧
   loadHistory stored = Return (strings [js "cos"; js "sin"]) ∧
   ∃ ls',
     saveHistory (js "sin") stored = Return ls' ∧
     loadHistory ls' = Return (strings [js "sin"; js "cos"])).
Proof.
  split.
  - assert (trim (js " ") = []) as Hb by reflexivity.
    split; [exact Hb|]. exact (proj1 (saveHistory_spec (js " ") stored) Hb).
  - assert (trim (js "sin") ≠ []) as Hb by (vm_compute; discriminate).
    assert (loadHistory stored = Return (strings [js "cos"; js "sin"])) as Hl
      by (vm_compute; reflexivity).
    split; [exact Hb|]. split; [exact Hl|].
    destruct (proj2 (saveHistory_spec (js "sin") stored) Hb _ Hl)
      as (ls' & Hs & _ & Hl' & _).
    exists ls'. split; [exact Hs | exact Hl'].
Defined.

Lemma history_invariant_witness :
  (loadHistory stored = Return (strings [js "cos"; js "sin"]) ∧
   length [js "cos"; js "sin"] ≤ MAX_HISTORY ∧ NoDup [js "cos"; js "sin"] ∧
   saveHistory (js "tan") stored
   = Return (<[HISTORY_KEY := stringify (strings [js "tan"; js "cos"; js "sin"])]>
               stored) ∧
   ∃ h', loadHistory
           (<[HISTORY_KEY := stringify (strings [js "tan"; js "cos"; js "sin"])]>
              stored)
         = Return (strings h') ∧ length h' ≤ MAX_HISTORY ∧ NoDup h') ∧
  (loadHistory ∅ = Return (strings []) ∧ NoDup letters ∧
   Forall (λ term, trim term ≠ []) letters ∧ length letters = 11 ∧
   ∃ ls', save_all letters ∅ = Return ls' ∧
          loadHistory ls' = Return (strings (reverse (drop 1 letters)))).
Proof.
  destruct history_invariant as (Hkeep & _ & Heleven). split.
  - assert (loadHistory stored = Return (strings [js "cos"; js "sin"])) as Hl
      by (vm_compute; reflexivity).
    assert (length [js "cos"; js "sin"] ≤ MAX_HISTORY) as Hlen by (vm_compute; lia).
    assert (NoDup [js "cos"; js "sin"]) as Hnd
      by (apply (bool_decide_unpack _); vm_compute; exact I).
    assert (saveHistory (js "tan") stored
            = Return (<[HISTORY_KEY := stringify (strings [js "tan"; js "cos"; js "sin"])]>
                        stored)) as Hs
      by (vm_compute; reflexivity).
    split; [exact Hl|]. split; [exact Hlen|]. split; [exact Hnd|]. split; [exact Hs|].
    destruct (Hkeep _ _ _ _ Hl Hlen Hnd Hs) as (h' & Hl' & Hlen' & Hnd' & _).
    exists h'. split; [exact Hl'|]. split; [exact Hlen' | exact Hnd'].
  - assert (loadHistory ∅ = Return (strings [])) as Hl by reflexivity.
    assert (NoDup letters) as Hnd by (apply (bool_decide_unpack _); vm_compute; exact I).
    assert (Forall (λ term, trim term ≠ []) letters) as Hb
      by (apply (bool_decide_unpack _); vm_compute; exact I).
    assert (length letters = 11) as Hlen by reflexivity.
    split; [exact Hl|]. split; [exact Hnd|]. split; [exact Hb|]. split; [exact Hlen|].
    exact (Heleven letters ∅ Hl Hnd Hb Hlen).
Defined.

(** C8, as stated, fails on the empty string: stored under the key, it is
    present and does not parse, and [loadHistory] returns the empty array
    instead of throwing. *)
Lemma loadHistory_empty_string_not_fatal :
  (<[HISTORY_KEY := []]> ∅ : gmap jsstring jsstring) !! HISTORY_KEY = Some [] ∧
  parse [] = Throw SyntaxError ∧
  loadHistory (<[HISTORY_KEY := []]> ∅) = Return (VArr []).
Proof. split; [|split]; vm_compute; reflexivity. Qed.

Lemma loadHistory_absent_or_malformed_witness :
  ((∅ : gmap jsstring jsstring) !! HISTORY_KEY = None ∧
   loadHistory ∅ = Return (VArr [])) ∧
  ((<[HISTORY_KEY := []]> ∅ : gmap jsstring jsstring) !! HISTORY_KEY = Some [] ∧
   loadHistory (<[HISTORY_KEY := []]> ∅) = Return (VArr [])) ∧
  ((<[HISTORY_KEY := js "[ sin"]> ∅ : gmap jsstring jsstring) !! HISTORY_KEY
   = Some (js "[ sin") ∧
   js "[ sin" ≠ [] ∧ parse (js "[ sin") = Throw SyntaxError ∧
   loadHistory (<[HISTORY_KEY := js "[ sin"]> ∅) = Throw SyntaxError).
Proof.
  split; [|split].
  - assert ((∅ : gmap jsstring jsstring) !! HISTORY_KEY = None) as Hn by reflexivity.
    split; [exact Hn|]. exact (proj1 (loadHistory_absent_or_malformed ∅) Hn).
  - assert ((<[HISTORY_KEY := []]> ∅ : gmap jsstring jsstring) !! HISTORY_KEY = Some [])
      as He by (vm_compute; reflexivity).
    split; [exact He|].
    exact (proj1 (proj2 (loadHistory_absent_or_malformed _)) He).
  - assert ((<[HISTORY_KEY := js "[ sin"]> ∅ : gmap jsstring jsstring) !! HISTORY_KEY
            = Some (js "[ sin")) as Hs by (vm_compute; reflexivity).
    assert (js "[ sin" ≠ []) as Hne by (vm_compute; discriminate).
    assert (parse (js "[ sin") = Throw SyntaxError) as Hp by (vm_compute; reflexivity).
    split; [exact Hs|]. split; [exact Hne|]. split; [exact Hp|].
    exact (proj2 (proj2 (loadHistory_absent_or_malformed _)) _ Hs Hne Hp).
Defined.

Lemma loadHistory_no_validation_witness :
  ((<[HISTORY_KEY := js "42"]> ∅ : gmap jsstring jsstring) !! HISTORY_KEY
   = Some (js "42") ∧
   parse (js "42") = Return (VNum (js "42")) ∧
   loadHistory (<[HISTORY_KEY := js "42"]> ∅) = Return (VNum (js "42"))) ∧
  ((<[HISTORY_KEY := js "{ }"]> ∅ : gmap jsstring jsstring) !! HISTORY_KEY
   = Some (js "{ }") ∧
   parse (js "{ }") = Return (VObj []) ∧
   loadHistory (<[HISTORY_KEY := js "{ }"]> ∅) = Return (VObj [])).
Proof.
  split.
  - assert ((<[HISTORY_KEY := js "42"]> ∅ : gmap jsstring jsstring) !! HISTORY_KEY
            = Some (js "42")) as Hs by (vm_compute; reflexivity).
    assert (parse (js "42") = Return (VNum (js "42"))) as Hp by (vm_compute; reflexivity).
    split; [exact Hs|]. split; [exact Hp|].
    exact (loadHistory_no_validation _ _ _ Hs Hp).
  - assert ((<[HISTORY_KEY := js "{ }"]> ∅ : gmap jsstring jsstring) !! HISTORY_KEY
            = Some (js "{ }")) as Hs by (vm_compute; reflexivity).
    assert (parse (js "{ }") = Return (VObj [])) as Hp by (vm_compute; reflexivity).
    split; [exact Hs|]. split; [exact Hp|].
    exact (loadHistory_no_validation _ _ _ Hs Hp).
Defined.

(** C4. The script on a card with example content only (card 1, content
    at part 2) and on a derivation card that has both (card 0, derivation
    at part 2, example at part 3).  The example loop shows the content,
    makes the heading look clickable and adds no listener: a click on the
    heading of card 1 changes nothing, and a click on the heading of card 0
    collapses the derivation and leaves the example expanded. *)
Theorem example_content_never_collapses :
  formulaCards page !! 1 = Some
    {| classList := {["formula-card"]};
       parts := [Heading {| h_text := js "Pythagorean Theorem";
                            h_icons := [EXAMPLE_ICON];
                            h_cursor := "pointer"; h_userSelect := "none";
                            h_hasToggle := Some "true"; h_click := [] |};
                 Text (js "a^2 + b^2 = c^2");
                 ExampleContent {| r_display := "block"; r_text := js "3, 4, 5" |}] |} ∧
  display_at page 1 2 = Some "block" ∧
  display_at (step page (Click 1)) 1 2 = Some "block" ∧
  step page (Click 1) = page ∧
  display_at page 0 3 = Some "block" ∧
  display_at (step page (Click 0)) 0 2 = Some "none" ∧
  display_at (step page (Click 0)) 0 3 = Some "block".
Proof. repeat split; vm_compute; reflexivity. Qed.

(** C5. Two keystrokes 50 ms apart with MathJax present: both typeset
    timers are pending after the second, and both run, while a single save
    timer is pending and the history is written once, with the last
    text. *)
Theorem typeset_timer_not_superseded :
  length (pending Typeset typing) = 2 ∧
  length (pending SaveSearch typing) = 1 ∧
  typesets (run typing [Elapse 100]) = 2 ∧
  localStorage (run typing [Elapse 1000])
  = <[HISTORY_KEY := stringify (strings [js "si"])]> ∅.
Proof. repeat split; vm_compute; reflexivity. Qed.

End Witnesses.
